(** * ARNS migration tool: URL utilities, name directory lookup, migration

    A shallow embedding of [src/lib/arns-utils.ts] and of the form-level
    check of the ARNS page, with the properties of the name-resolution and
    URL-construction workflow proved about it.

    JavaScript strings are modelled as lists of characters ([list ascii]);
    string literals of the source are written [lit "..."].  The patterns of
    the source only tell ASCII characters apart: any other character is
    outside every class and differs from every literal.  Regular
    expression literals are modelled by a small syntax tree ([RegExp.regex])
    and a backtracking matcher in continuation-passing style, after the
    matcher/continuation semantics of the ECMAScript specification. *)

From Stdlib Require Import List Ascii String Arith Lia Bool.
Import ListNotations.

Set Implicit Arguments.

(* [length] is the length of a list throughout. *)
Local Abbreviation length := List.length (only parsing).

(** ** Strings *)

Definition jsstring := list ascii.

Definition lit (s : string) : jsstring := list_ascii_of_string s.

(** [a === b] on strings. *)
Fixpoint streq (a b : jsstring) : bool :=
  match a, b with
  | [], [] => true
  | c :: a', d :: b' => Ascii.eqb c d && streq a' b'
  | _, _ => false
  end.

(** ** Regular expressions *)

Module RegExp.

(** Members of a character class [[...]]: a range [lo-hi] or one character. *)
Inductive class_item :=
| Range (lo hi : ascii)
| One (c : ascii).

Definition class := list class_item.

Definition in_item (c : ascii) (it : class_item) : bool :=
  match it with
  | Range lo hi =>
      (nat_of_ascii lo <=? nat_of_ascii c) && (nat_of_ascii c <=? nat_of_ascii hi)
  | One d => Ascii.eqb d c
  end.

Definition in_class (cls : class) (c : ascii) : bool :=
  existsb (in_item c) cls.

(** The fragment of the pattern language used by the source: literal
    characters (escaped or not), a class repeated exactly [n] times, a class
    repeated greedily one or more times, the capture group (there is at most
    one, group 1), concatenation, and the two anchors.  No flags are used. *)
Inductive regex :=
| Lit (s : jsstring)
| Times (cls : class) (n : nat)
| Plus (cls : class)
| Group (r : regex)
| Seq (r1 r2 : regex)
| Bol
| Eol.

(** A match state: the index reached in the input, the input from that
    index on, and the text captured by group 1 ([None] is [undefined]). *)
Record MatchState := mkState {
  endIndex : nat;
  rest : jsstring;
  capture : option jsstring
}.

Definition Continuation := MatchState -> option MatchState.

(** Consume one character that satisfies [p]. *)
Definition char_m (p : ascii -> bool) (k : Continuation) : Continuation :=
  fun x =>
    match rest x with
    | c :: t => if p c then k (mkState (S (endIndex x)) t (capture x)) else None
    | [] => None
    end.

Fixpoint lit_m (s : jsstring) (k : Continuation) : Continuation :=
  match s with
  | [] => k
  | c :: s' => char_m (Ascii.eqb c) (lit_m s' k)
  end.

Fixpoint times_m (p : ascii -> bool) (n : nat) (k : Continuation) : Continuation :=
  match n with
  | O => k
  | S n' => char_m p (times_m p n' k)
  end.

(** Greedy [+]: take one character, then try to take more before trying
    the continuation (the longest run is tried first, then shorter ones). *)
Fixpoint plus_m (p : ascii -> bool) (k : Continuation)
    (i : nat) (s : jsstring) (cap : option jsstring) : option MatchState :=
  match s with
  | c :: t =>
      if p c then
        match plus_m p k (S i) t cap with
        | Some y => Some y
        | None => k (mkState (S i) t cap)
        end
      else None
  | [] => None
  end.

Fixpoint m (r : regex) (k : Continuation) : Continuation :=
  match r with
  | Lit s => lit_m s k
  | Times cls n => times_m (in_class cls) n k
  | Plus cls => fun x => plus_m (in_class cls) k (endIndex x) (rest x) (capture x)
  | Group r' =>
      fun x =>
        m r'
          (fun y =>
             k (mkState (endIndex y) (rest y)
                  (Some (firstn (endIndex y - endIndex x) (rest x)))))
          x
  | Seq r1 r2 => m r1 (m r2 k)
  | Bol => fun x => if endIndex x =? 0 then k x else None
  | Eol => fun x => match rest x with [] => k x | _ :: _ => None end
  end.

(** [RegExp.prototype.exec] without the [g] and [y] flags: the first start
    index, from 0 upwards, at which the pattern matches. *)
Fixpoint exec_from (r : regex) (i : nat) (s : jsstring) : option MatchState :=
  match m r Some (mkState i s None) with
  | Some y => Some y
  | None =>
      match s with
      | [] => None
      | _ :: t => exec_from r (S i) t
      end
  end.

Definition exec (r : regex) (s : jsstring) : option MatchState :=
  exec_from r 0 s.

(** [r.test(s)]. *)
Definition test (r : regex) (s : jsstring) : bool :=
  match exec r s with Some _ => true | None => false end.

(** Declarative meaning of a pattern: [Matches r x y] when [r] can take the
    match state [x] to [y]. *)
Fixpoint Matches (r : regex) (x y : MatchState) : Prop :=
  match r with
  | Lit s =>
      rest x = s ++ rest y /\ endIndex y = endIndex x + length s /\
      capture y = capture x
  | Times cls n =>
      exists u, rest x = u ++ rest y /\ length u = n /\
                Forall (fun c => in_class cls c = true) u /\
                endIndex y = endIndex x + n /\ capture y = capture x
  | Plus cls =>
      exists u, rest x = u ++ rest y /\ u <> [] /\
                Forall (fun c => in_class cls c = true) u /\
                endIndex y = endIndex x + length u /\ capture y = capture x
  | Group r' =>
      exists z, Matches r' x z /\
                y = mkState (endIndex z) (rest z)
                      (Some (firstn (endIndex z - endIndex x) (rest x)))
  | Seq r1 r2 => exists z, Matches r1 x z /\ Matches r2 z y
  | Bol => endIndex x = 0 /\ y = x
  | Eol => rest x = [] /\ y = x
  end.

End RegExp.

Import RegExp.

(** ** URL/ID utilities ([src/lib/arns-utils.ts]) *)

(** The class [[a-zA-Z0-9_-]]. *)
Definition idClass : class :=
  [Range "a" "z"; Range "A" "Z"; Range "0" "9"; One "_"; One "-"]%char.

Definition isIdChar (c : ascii) : bool := in_class idClass c.

(** [/^[a-zA-Z0-9_-]{43}$/] *)
Definition arweaveIdRegex : regex :=
  Seq Bol (Seq (Times idClass 43) Eol).

Definition isValidArweaveId (id : jsstring) : bool :=
  test arweaveIdRegex id.

(** [/arweave\.net\/([a-zA-Z0-9_-]{43})/], [/ar\.io\/([a-zA-Z0-9_-]{43})/]
    and [/\/([a-zA-Z0-9_-]{43})$/], in the order of the source. *)
Definition patterns : list regex :=
  [ Seq (Lit (lit "arweave.net/")) (Group (Times idClass 43));
    Seq (Lit (lit "ar.io/")) (Group (Times idClass 43));
    Seq (Lit (lit "/")) (Seq (Group (Times idClass 43)) Eol) ].

(** [match[1]] read as a string.  In [isValidArweaveId(match[1])] an
    [undefined] group would be converted to the string ["undefined"] by
    [test]; group 1 is mandatory in every pattern of the source, so it is
    always defined after a match. *)
Definition group1_text (y : MatchState) : jsstring :=
  match capture y with
  | Some t => t
  | None => lit "undefined"
  end.

(** The [for] loop of [extractTransactionId] over the remaining patterns. *)
Fixpoint extract_loop (ps : list regex) (url : jsstring) : option jsstring :=
  match ps with
  | [] => None
  | pattern :: ps' =>
      match exec pattern url with
      | Some y =>
          if isValidArweaveId (group1_text y) then capture y
          else extract_loop ps' url
      | None => extract_loop ps' url
      end
  end.

Definition extractTransactionId (url : jsstring) : option jsstring :=
  extract_loop patterns url.

(** [/\/([a-zA-Z0-9_-]+)$/], used by [migrateToArns]. *)
Definition txIdRegex : regex :=
  Seq (Lit (lit "/")) (Seq (Group (Plus idClass)) Eol).

(** [/^https:\/\/[a-zA-Z0-9_-]+\.arweave\.net\/[a-zA-Z0-9_-]+$/], the
    check of [handleMigration]. *)
Definition arweaveRegex : regex :=
  Seq Bol
    (Seq (Lit (lit "https://"))
       (Seq (Plus idClass)
          (Seq (Lit (lit ".arweave.net/"))
             (Seq (Plus idClass) Eol)))).

(** ** Effects: thrown values, results and the log of external calls *)

(** A thrown value: an [Error] object with its [message], or anything else
    (for which [error instanceof Error] is false). *)
Inductive thrown :=
| ErrorObj (message : jsstring)
| NonError.

Inductive result (A : Type) :=
| Ok (a : A)
| Throw (e : thrown).

Arguments Ok {A} a.
Arguments Throw {A} e.

(** [{ name, value }] tags of a write interaction. *)
Record Tag := mkTag { tag_name : jsstring; tag_value : jsstring }.

(** The first argument of [ant.setUndernameRecord]. *)
Record SetRecordParams := mkParams {
  p_undername : jsstring;
  p_transactionId : jsstring;
  p_ttlSeconds : nat
}.

(** Calls made to the registry and to the contracts, in order. *)
Inductive event :=
| CallGetArNSRecords
| CallGetInfo (processId : jsstring)
| CallSetUndernameRecord (processId : jsstring) (params : SetRecordParams)
    (tags : list Tag).

(** A computation returns or throws, and appends to the log of calls. *)
Definition M (A : Type) : Type := list event -> result A * list event.

Definition ret {A} (a : A) : M A := fun log => (Ok a, log).

Definition throw {A} (e : thrown) : M A := fun log => (Throw e, log).

Definition bind {A B} (c : M A) (f : A -> M B) : M B :=
  fun log =>
    match c log with
    | (Ok a, log') => f a log'
    | (Throw e, log') => (Throw e, log')
    end.

(** [try { body } catch (error) { handler }] *)
Definition try_catch {A} (body : M A) (handler : thrown -> M A) : M A :=
  fun log =>
    match body log with
    | (Ok a, log') => (Ok a, log')
    | (Throw e, log') => handler e log'
    end.

(** An awaited external call: logged, then its outcome. *)
Definition call {A} (ev : event) (outcome : result A) : M A :=
  fun log => (outcome, log ++ [ev]).

(** A local construction ([new C(...)], [X.init(...)]): it returns or
    throws, and is not a call to a service. *)
Definition construct {A} (outcome : result A) : M A :=
  fun log => (outcome, log).

Notation "x <- c1 ;; c2" := (bind c1 (fun x => c2))
  (at level 61, c1 at next level, right associativity).

(** [for (const x of xs) { acc = body(acc, x) }] with the loop's mutable
    state passed along. *)
Fixpoint for_of {A S} (xs : list A) (body : S -> A -> M S) (acc : S) : M S :=
  match xs with
  | [] => ret acc
  | x :: xs' => acc' <- body acc x ;; for_of xs' body acc'
  end.

(** Run a computation from the empty log. *)
Definition run {A} (c : M A) : result A * list event := c [].

(** ** The external services *)

(** A value of the registry's record set, as far as the source reads it. *)
Record ArnsRecord := mkRecord {
  record_processId : jsstring;
  record_undername : option jsstring
}.

Record AntInfo := mkInfo { Owner : jsstring }.

(** What [setUndernameRecord] resolves to; [id] may be [undefined]. *)
Record WriteResult := mkWrite { id : option jsstring }.

(** The environment of one invocation: [process.env.NODE_ENV], whether
    [window.arweaveWallet] is present, the outcome of
    [new ArweaveSigner(window.arweaveWallet)] and of
    [ANT.init({ processId, signer })], the outcome of
    [IO.init().getArNSRecords()] as the entries of the returned object in
    [Object.entries] order, of [ANT.init({ processId }).getInfo()] and of
    [setUndernameRecord(params, { tags })] on the contract client of
    [processId], and [new Date().toISOString()]. *)
Record World := mkWorld {
  NODE_ENV : jsstring;
  arweaveWallet : bool;
  newArweaveSigner : result unit;
  initANT : jsstring -> result unit;
  getArNSRecords : result (list (jsstring * ArnsRecord));
  getInfo : jsstring -> result AntInfo;
  setUndernameRecord :
    jsstring -> SetRecordParams -> list Tag -> result WriteResult;
  toISOString : jsstring
}.

(** ** Name directory lookup: [getArnsNames] *)

Record ArnsName := mkName {
  name : jsstring;
  processId : jsstring;
  undername : option jsstring
}.

(** [v || d] for an optional string: [undefined] and [''] are falsy. *)
Definition or_default (v : option jsstring) (d : jsstring) : jsstring :=
  match v with
  | Some (c :: t) => c :: t
  | Some [] | None => d
  end.

(** The body of the [for] loop, with its inner [try]/[catch]. *)
Definition ownership_step (w : World) (walletAddress : jsstring)
    (userArnsNames : list ArnsName) (entry : jsstring * ArnsRecord)
  : M (list ArnsName) :=
  let '(name, record) := entry in
  try_catch
    (antInfo <- call (CallGetInfo (record_processId record))
                  (getInfo w (record_processId record)) ;;
     if streq (Owner antInfo) walletAddress
     then ret (userArnsNames ++
               [mkName name (record_processId record)
                  (Some (or_default (record_undername record) (lit "@")))])
     else ret userArnsNames)
    (fun _ => ret userArnsNames).

Definition mockArnsNames : list ArnsName :=
  [ mkName (lit "example-arns") (lit "mock-process-id-1234567890abcdef")
      (Some (lit "@"));
    mkName (lit "test-domain") (lit "mock-process-id-abcdef1234567890")
      (Some (lit "www")) ].

Definition fetchFailedMessage : jsstring :=
  lit "Failed to fetch ARNS names. Please try again.".

Definition getArnsNames (w : World) (walletAddress : jsstring)
  : M (list ArnsName) :=
  try_catch
    (arnsRecords <- call CallGetArNSRecords (getArNSRecords w) ;;
     userArnsNames <- for_of arnsRecords (ownership_step w walletAddress) [] ;;
     ret userArnsNames)
    (fun _ =>
       if streq (NODE_ENV w) (lit "development")
       then ret mockArnsNames
       else throw (ErrorObj fetchFailedMessage)).

(** ** Migration executor: [migrateToArns] *)

Record MigrationResult := mkResult {
  arnsUrl : jsstring;
  transactionId : jsstring
}.

(** The loop that recovers the name from the process id: the first entry
    whose [processId] is the given one, [''] when there is none. *)
Fixpoint find_arnsName (processId : jsstring)
    (entries : list (jsstring * ArnsRecord)) : jsstring :=
  match entries with
  | [] => []
  | (name, record) :: entries' =>
      if streq (record_processId record) processId then name
      else find_arnsName processId entries'
  end.

(** [!s] for a string. *)
Definition is_empty (s : jsstring) : bool :=
  match s with [] => true | _ :: _ => false end.

Definition migrationTags (w : World) (arweaveUrl : jsstring) : list Tag :=
  [ mkTag (lit "App-Name") (lit "ARNS-Migration-Tool");
    mkTag (lit "Migration-Source") arweaveUrl;
    mkTag (lit "Timestamp") (toISOString w) ].

(** The [try] block of [migrateToArns]. *)
Definition migrate_body (w : World) (processId undername arweaveUrl : jsstring)
  : M MigrationResult :=
  match exec txIdRegex arweaveUrl with
  | None => throw (ErrorObj (lit "Invalid Arweave URL format"))
  | Some txIdMatch =>
      let transactionId := group1_text txIdMatch in
      if negb (arweaveWallet w)
      then throw (ErrorObj (lit "ArConnect wallet not found"))
      else
        signer <- construct (newArweaveSigner w) ;;
        ant <- construct (initANT w processId) ;;
        let params := mkParams undername transactionId 3600 in
        let tags := migrationTags w arweaveUrl in
        result <- call (CallSetUndernameRecord processId params tags)
                    (setUndernameRecord w processId params tags) ;;
        arnsRecords <- call CallGetArNSRecords (getArNSRecords w) ;;
        let arnsName := find_arnsName processId arnsRecords in
        if is_empty arnsName
        then throw (ErrorObj
                      (lit "Could not find ARNS name for the given process ID"))
        else
          let arnsUrl :=
            if streq undername (lit "@") || is_empty undername
            then lit "https://" ++ arnsName ++ lit ".ar.io"
            else lit "https://" ++ undername ++ lit "_" ++ arnsName
                   ++ lit ".ar.io" in
          ret (mkResult arnsUrl (or_default (id result) (lit "pending")))
  end.

(** [error instanceof Error ? error.message : 'Unknown error'] *)
Definition message_of (e : thrown) : jsstring :=
  match e with
  | ErrorObj msg => msg
  | NonError => lit "Unknown error"
  end.

Definition migrateToArns (w : World) (processId undername arweaveUrl : jsstring)
  : M MigrationResult :=
  try_catch (migrate_body w processId undername arweaveUrl)
    (fun error =>
       if streq (NODE_ENV w) (lit "development")
       then
         ret (mkResult
                (if streq undername (lit "@")
                 then lit "https://example-arns.ar.io"
                 else lit "https://" ++ undername ++ lit "_example-arns.ar.io")
                (lit "mock-migration-tx-id"))
       else throw (ErrorObj (lit "Migration failed: " ++ message_of error))).

(** ** The page's form handler: [handleMigration] *)

Record PageState := mkPage {
  arnsNames : list ArnsName;
  selectedArns : jsstring;
  arweaveUrl : jsstring;
  migrationResult : jsstring;
  error : option jsstring;
  isMigrating : bool
}.

Definition selectMessage : jsstring :=
  lit "Please select an ARNS name and enter an Arweave URL".

Definition invalidUrlMessage : jsstring :=
  lit "Please enter a valid arweave.net URL (e.g., https://example.arweave.net/txId)".

(** [ms.find(arns => arns.name === selected)] *)
Definition find_selected (selected : jsstring) (ms : list ArnsName)
  : option ArnsName :=
  find (fun arns => streq (name arns) selected) ms.

(** The [try] block of [handleMigration]; it returns [result.arnsUrl]. *)
Definition handleMigration_body (w : World) (st : PageState) : M jsstring :=
  match find_selected (selectedArns st) (arnsNames st) with
  | None => throw (ErrorObj (lit "Selected ARNS name not found"))
  | Some selectedArnsData =>
      result <- migrateToArns w (processId selectedArnsData)
                  (or_default (undername selectedArnsData) (lit "@"))
                  (arweaveUrl st) ;;
      ret (arnsUrl result)
  end.

Definition handleMigration (w : World) (st : PageState)
  : PageState * list event :=
  if is_empty (selectedArns st) || is_empty (arweaveUrl st) then
    (mkPage (arnsNames st) (selectedArns st) (arweaveUrl st)
       (migrationResult st) (Some selectMessage) (isMigrating st), [])
  else if negb (test arweaveRegex (arweaveUrl st)) then
    (mkPage (arnsNames st) (selectedArns st) (arweaveUrl st)
       (migrationResult st) (Some invalidUrlMessage) (isMigrating st), [])
  else
    match run (handleMigration_body w st) with
    | (Ok url, log) =>
        (mkPage (arnsNames st) (selectedArns st) (arweaveUrl st)
           url None false, log)
    | (Throw err, log) =>
        (mkPage (arnsNames st) (selectedArns st) (arweaveUrl st)
           [] (Some (match err with
                     | ErrorObj msg => msg
                     | NonError => lit "Migration failed"
                     end)) false, log)
    end.

(** ** Wallet adapter: [connectWallet], [getWalletAddress] *)

(** Calls made to the injected wallet, in order. *)
Inductive wallet_call :=
| WalletConnect (permissions : list jsstring)
| WalletGetActiveAddress.

(** [window.arweaveWallet] as far as the source uses it: the outcome of
    [connect(permissions)] and of [getActiveAddress()]. *)
Record Wallet := mkWallet {
  connect : list jsstring -> result unit;
  getActiveAddress : result jsstring
}.

Definition walletPermissions : list jsstring :=
  [lit "ACCESS_ADDRESS"; lit "SIGN_TRANSACTION"].

Definition connectFailedMessage : jsstring :=
  lit "Failed to connect wallet. Please make sure ArConnect is installed and try again.".

(** The [try] block of [connectWallet]; the wallet is [None] when
    [window] or [window.arweaveWallet] is missing. *)
Definition connectWallet_body (wallet : option Wallet)
  : result jsstring * list wallet_call :=
  match wallet with
  | Some wl =>
      match connect wl walletPermissions with
      | Ok _ =>
          (getActiveAddress wl,
           [WalletConnect walletPermissions; WalletGetActiveAddress])
      | Throw e => (Throw e, [WalletConnect walletPermissions])
      end
  | None =>
      (Throw (ErrorObj
                (lit "ArConnect wallet not found. Please install ArConnect extension.")),
       [])
  end.

Definition connectWallet (wallet : option Wallet)
  : result jsstring * list wallet_call :=
  match connectWallet_body wallet with
  | (Ok address, log) => (Ok address, log)
  | (Throw _, log) => (Throw (ErrorObj connectFailedMessage), log)
  end.

(** The [try] block of [getWalletAddress]; [None] is [null]. *)
Definition getWalletAddress_body (wallet : option Wallet)
  : result (option jsstring) * list wallet_call :=
  match wallet with
  | Some wl =>
      match getActiveAddress wl with
      | Ok address => (Ok (Some address), [WalletGetActiveAddress])
      | Throw e => (Throw e, [WalletGetActiveAddress])
      end
  | None => (Ok None, [])
  end.

Definition getWalletAddress (wallet : option Wallet)
  : result (option jsstring) * list wallet_call :=
  match getWalletAddress_body wallet with
  | (Ok address, log) => (Ok address, log)
  | (Throw _, log) => (Ok None, log)
  end.

(** ** The page's other handlers *)

(** The remaining state hooks of the page. *)
Record ConnState := mkConn {
  walletConnected : bool;
  walletAddress : jsstring;
  isLoading : bool;
  isLoadingArns : bool
}.

(** [checkWalletConnection], run once when the page loads. *)
Definition checkWalletConnection (wallet : option Wallet) (c : ConnState)
  : ConnState * list wallet_call :=
  match getWalletAddress wallet with
  | (Ok (Some (a :: address)), log) =>
      (mkConn true (a :: address) (isLoading c) (isLoadingArns c), log)
  | (Ok (Some []), log) | (Ok None, log) => (c, log)
  | (Throw _, log) => (c, log)
  end.

Definition set_error (st : PageState) (e : option jsstring) : PageState :=
  mkPage (arnsNames st) (selectedArns st) (arweaveUrl st)
    (migrationResult st) e (isMigrating st).

(** [err instanceof Error ? err.message : fallback] *)
Definition message_or (err : thrown) (fallback : jsstring) : jsstring :=
  match err with
  | ErrorObj msg => msg
  | NonError => fallback
  end.

Definition handleConnectWallet (wallet : option Wallet)
    (c : ConnState) (st : PageState)
  : (ConnState * PageState) * list wallet_call :=
  match connectWallet wallet with
  | (Ok address, log) =>
      ((mkConn true address false (isLoadingArns c), set_error st None), log)
  | (Throw err, log) =>
      ((mkConn (walletConnected c) (walletAddress c) false (isLoadingArns c),
        set_error st (Some (message_or err (lit "Failed to connect wallet")))),
       log)
  end.

Definition noNamesMessage : jsstring :=
  lit "No ARNS names found for this wallet address".

Definition handleFetchArnsNames (w : World) (c : ConnState) (st : PageState)
  : (ConnState * PageState) * list event :=
  if is_empty (walletAddress c) then ((c, st), [])
  else
    match run (getArnsNames w (walletAddress c)) with
    | (Ok names, log) =>
        ((mkConn (walletConnected c) (walletAddress c) (isLoading c) false,
          mkPage names (selectedArns st) (arweaveUrl st) (migrationResult st)
            (if length names =? 0 then Some noNamesMessage else None)
            (isMigrating st)),
         log)
    | (Throw err, log) =>
        ((mkConn (walletConnected c) (walletAddress c) (isLoading c) false,
          set_error st
            (Some (message_or err (lit "Failed to fetch ARNS names")))),
         log)
    end.

(** [extractTxId] of the page, shown after a migration. *)
Definition extractTxId (url : jsstring) : jsstring :=
  match exec txIdRegex url with
  | Some y => group1_text y
  | None => []
  end.

(** * Specification vocabulary *)

(** ** URL shapes *)

(** A well-formed content reference: 43 characters of the id alphabet. *)
Definition IdOK (r : jsstring) : Prop :=
  length r = 43 /\ Forall (fun c => isIdChar c = true) r.

(** [url] has the literal [h] right after [pre], followed by a
    well-formed reference [r]. *)
Definition IdAfter (h url pre r : jsstring) : Prop :=
  exists post, url = pre ++ h ++ r ++ post /\ IdOK r.

(** [r] is the reference after the leftmost such occurrence of [h]. *)
Definition FirstIdAfter (h url r : jsstring) : Prop :=
  exists pre, IdAfter h url pre r /\
              forall pre' r', IdAfter h url pre' r' -> length pre <= length pre'.

(** [url] ends with a slash and a well-formed reference [r]. *)
Definition TrailingId (url r : jsstring) : Prop :=
  exists pre, url = pre ++ lit "/" ++ r /\ IdOK r.

(** [url] ends with a slash and a non-empty run [seg] of id characters. *)
Definition TrailingSegment (url seg : jsstring) : Prop :=
  exists pre, url = pre ++ lit "/" ++ seg /\ seg <> [] /\
              Forall (fun c => isIdChar c = true) seg.

(** The shape accepted by the form: [https://<sub>.arweave.net/<seg>]. *)
Definition ContentUrlShape (url : jsstring) : Prop :=
  exists sub seg,
    url = lit "https://" ++ sub ++ lit ".arweave.net/" ++ seg /\
    sub <> [] /\ Forall (fun c => isIdChar c = true) sub /\
    seg <> [] /\ Forall (fun c => isIdChar c = true) seg.

(** The two host-qualified patterns are [hostPattern h] for
    [h = "arweave.net/"] and [h = "ar.io/"]; the third is
    [trailingPattern]. *)
Definition hostPattern (h : jsstring) : regex :=
  Seq (Lit h) (Group (Times idClass 43)).

Definition trailingPattern : regex :=
  Seq (Lit (lit "/")) (Seq (Group (Times idClass 43)) Eol).

(** ** Ownership *)

(** The contract of [entry] reports [walletAddress] as its owner. *)
Definition Owned (w : World) (walletAddress : jsstring)
    (entry : jsstring * ArnsRecord) : Prop :=
  exists antInfo, getInfo w (record_processId (snd entry)) = Ok antInfo /\
                  Owner antInfo = walletAddress.

Definition owns (w : World) (walletAddress : jsstring)
    (entry : jsstring * ArnsRecord) : bool :=
  match getInfo w (record_processId (snd entry)) with
  | Ok antInfo => streq (Owner antInfo) walletAddress
  | Throw _ => false
  end.

(** The name record built from a registry entry. *)
Definition name_of (entry : jsstring * ArnsRecord) : ArnsName :=
  mkName (fst entry) (record_processId (snd entry))
    (Some (or_default (record_undername (snd entry)) (lit "@"))).

(** The ownership queries of a scan, one per entry, in order. *)
Definition info_calls (records : list (jsstring * ArnsRecord)) : list event :=
  map (fun entry => CallGetInfo (record_processId (snd entry))) records.

(** ** Migration *)

(** The write submitted for a reference [txId]. *)
Definition submission (w : World) (processId undername arweaveUrl txId : jsstring)
  : event :=
  CallSetUndernameRecord processId (mkParams undername txId 3600)
    (migrationTags w arweaveUrl).

(** The signer and the contract client of [migrateToArns] are
    constructed. *)
Definition Constructed (w : World) (processId : jsstring) : Prop :=
  newArweaveSigner w = Ok tt /\ initANT w processId = Ok tt.

(** Constructing the signer, or after it the contract client, throws
    [e]. *)
Definition ConstructionThrows (w : World) (processId : jsstring) (e : thrown)
  : Prop :=
  newArweaveSigner w = Throw e \/
  (newArweaveSigner w = Ok tt /\ initANT w processId = Throw e).

(** The URL of the result, from the resolved name and the sub-name. *)
Definition formatArnsUrl (undername arnsName : jsstring) : jsstring :=
  if streq undername (lit "@") || is_empty undername
  then lit "https://" ++ arnsName ++ lit ".ar.io"
  else lit "https://" ++ undername ++ lit "_" ++ arnsName ++ lit ".ar.io".

(** ** Example environments *)

(** Three registry entries: [A] owned by [X], [B] owned by [Y], and [C]
    whose contract cannot be queried. *)
Definition abcWorld (env : jsstring) : World :=
  mkWorld env true (Ok tt) (fun _ => Ok tt)
    (Ok [ (lit "C", mkRecord (lit "pC") None);
          (lit "A", mkRecord (lit "pA") None);
          (lit "B", mkRecord (lit "pB") (Some (lit "www"))) ])
    (fun pid =>
       if streq pid (lit "pA") then Ok (mkInfo (lit "X"))
       else if streq pid (lit "pB") then Ok (mkInfo (lit "Y"))
       else Throw (ErrorObj (lit "contract unreachable")))
    (fun _ _ _ => Ok (mkWrite (Some (lit "T1"))))
    (lit "2024-01-01T00:00:00.000Z").

(** An environment whose registry cannot be fetched and whose contracts
    reject every write; the signer and the contract clients are
    constructed. *)
Definition downWorld (env : jsstring) : World :=
  mkWorld env true (Ok tt) (fun _ => Ok tt)
    (Throw (ErrorObj (lit "network error")))
    (fun _ => Throw (ErrorObj (lit "network error")))
    (fun _ _ _ => Throw (ErrorObj (lit "network error")))
    (lit "2024-01-01T00:00:00.000Z").

(** The registry maps [bar] to contract [C1]; writes are accepted and
    report what [writeResult] says. *)
Definition barWorld (env : jsstring) (writeResult : WriteResult) : World :=
  mkWorld env true (Ok tt) (fun _ => Ok tt)
    (Ok [ (lit "foo", mkRecord (lit "C0") None);
          (lit "bar", mkRecord (lit "C1") None) ])
    (fun _ => Ok (mkInfo (lit "X")))
    (fun _ _ _ => Ok writeResult)
    (lit "2024-01-01T00:00:00.000Z").

(** The wallet is present, but a signer cannot be made from it. *)
Definition noSignerWorld (env : jsstring) : World :=
  mkWorld env true (Throw (ErrorObj (lit "invalid key"))) (fun _ => Ok tt)
    (Ok [ (lit "bar", mkRecord (lit "C1") None) ])
    (fun _ => Ok (mkInfo (lit "X")))
    (fun _ _ _ => Ok (mkWrite (Some (lit "T1"))))
    (lit "2024-01-01T00:00:00.000Z").

(** * Properties *)

(** ** Strings *)

Lemma streq_eq (a b : jsstring) : streq a b = true <-> a = b.
Proof.
  revert b; induction a as [|c a IH]; intros [|d b]; simpl; split;
    try congruence; try reflexivity.
  - intros H. apply andb_true_iff in H as [Hc Hab].
    apply Ascii.eqb_eq in Hc. apply IH in Hab. congruence.
  - intros H. injection H as -> ->.
    rewrite Ascii.eqb_refl. simpl. now apply IH.
Qed.

Lemma streq_refl (a : jsstring) : streq a a = true.
Proof. now apply streq_eq. Qed.

Lemma streq_neq (a b : jsstring) : streq a b = false <-> a <> b.
Proof.
  split.
  - intros H E. apply streq_eq in E. congruence.
  - intros H. destruct (streq a b) eqn:E; [|reflexivity].
    apply streq_eq in E. contradiction.
Qed.

(** ** The matcher *)

Module RegExpFacts.

Section Matchers.

Variable p : ascii -> bool.

Lemma lit_m_app (s : jsstring) (k : Continuation) i t c :
  lit_m s k (mkState i (s ++ t) c) = k (mkState (i + length s) t c).
Proof.
  revert i; induction s as [|a s IH]; intros i; simpl.
  - now rewrite Nat.add_0_r.
  - unfold char_m; simpl. rewrite Ascii.eqb_refl, IH.
    now rewrite Nat.add_succ_r.
Qed.

Lemma lit_m_inv (s : jsstring) (k : Continuation) x z :
  lit_m s k x = Some z ->
  exists t, rest x = s ++ t /\
            k (mkState (endIndex x + length s) t (capture x)) = Some z.
Proof.
  revert x; induction s as [|a s IH]; intros [i r c]; simpl.
  - intros H. exists r. now rewrite Nat.add_0_r.
  - unfold char_m; simpl. destruct r as [|d r]; [discriminate|].
    destruct (Ascii.eqb_spec a d) as [->|]; [|discriminate].
    intros H. apply IH in H as (t & Hr & Hk). simpl in *.
    exists t. split; [now rewrite Hr|]. now rewrite Nat.add_succ_r.
Qed.

Lemma times_m_app (u : jsstring) (k : Continuation) i t c :
  Forall (fun a => p a = true) u ->
  times_m p (length u) k (mkState i (u ++ t) c)
  = k (mkState (i + length u) t c).
Proof.
  intros Hu; revert i; induction Hu as [|a u Ha Hu IH]; intros i; simpl.
  - now rewrite Nat.add_0_r.
  - unfold char_m; simpl. rewrite Ha, IH. now rewrite Nat.add_succ_r.
Qed.

Lemma times_m_inv n (k : Continuation) x z :
  times_m p n k x = Some z ->
  exists u t, rest x = u ++ t /\ length u = n /\
              Forall (fun a => p a = true) u /\
              k (mkState (endIndex x + n) t (capture x)) = Some z.
Proof.
  revert x; induction n as [|n IH]; intros [i r c]; simpl.
  - intros H. exists [], r. rewrite Nat.add_0_r. auto.
  - unfold char_m; simpl. destruct r as [|d r]; [discriminate|].
    destruct (p d) eqn:Hd; [|discriminate].
    intros H. apply IH in H as (u & t & Hr & Hl & Hu & Hk). simpl in *.
    exists (d :: u), t. repeat split; simpl; auto.
    + now rewrite Hr.
    + now rewrite Nat.add_succ_r.
Qed.

Lemma plus_m_inv (k : Continuation) i s c z :
  plus_m p k i s c = Some z ->
  exists u t, s = u ++ t /\ u <> [] /\ Forall (fun a => p a = true) u /\
              k (mkState (i + length u) t c) = Some z.
Proof.
  revert i; induction s as [|d s IH]; intros i; simpl; [discriminate|].
  destruct (p d) eqn:Hd; [|discriminate].
  destruct (plus_m p k (S i) s c) eqn:Hrec.
  - intros H. injection H as ->.
    apply IH in Hrec as (u & t & Hs & _ & Hu & Hk).
    exists (d :: u), t. repeat split; simpl; auto.
    + now rewrite Hs.
    + discriminate.
    + now rewrite Nat.add_succ_r.
  - intros H. exists [d], s. repeat split; simpl; auto.
    + discriminate.
    + now rewrite Nat.add_1_r.
Qed.

Lemma plus_m_complete (k : Continuation) i u t c z :
  u <> [] -> Forall (fun a => p a = true) u ->
  k (mkState (i + length u) t c) = Some z ->
  exists z', plus_m p k i (u ++ t) c = Some z'.
Proof.
  intros Hne Hu; revert i; induction Hu as [|a u Ha Hu IH]; intros i Hk;
    [contradiction|].
  simpl. rewrite Ha.
  destruct (plus_m p k (S i) (u ++ t) c) eqn:Hrec; [eauto|].
  destruct u as [|b u].
  - simpl in *. rewrite Nat.add_1_r in Hk. eauto.
  - exfalso. destruct (IH ltac:(discriminate) (S i)) as [z' Hz'].
    + simpl in *. now rewrite Nat.add_succ_r in Hk.
    + congruence.
Qed.

End Matchers.

Lemma state_eta (y : MatchState) :
  y = mkState (endIndex y) (rest y) (capture y).
Proof. now destruct y. Qed.

(** The matcher only succeeds along the declarative meaning. *)
Lemma m_sound (r : regex) : forall (k : Continuation) x z,
  m r k x = Some z -> exists y, Matches r x y /\ k y = Some z.
Proof.
  induction r as [s|cls n|cls|r IH|r1 IH1 r2 IH2| |]; intros k x z H; simpl in *.
  - apply lit_m_inv in H as (t & Hr & Hk). eexists; split; [|exact Hk].
    simpl; auto.
  - apply times_m_inv in H as (u & t & Hr & Hl & Hu & Hk).
    eexists; split; [|exact Hk]. exists u; simpl; auto.
  - apply plus_m_inv in H as (u & t & Hr & Hne & Hu & Hk).
    eexists; split; [|exact Hk]. exists u; simpl; auto.
  - apply IH in H as (y & Hy & Hk). eexists; split; [|exact Hk]. eauto.
  - apply IH1 in H as (y1 & Hy1 & H). apply IH2 in H as (y2 & Hy2 & Hk).
    eauto.
  - destruct (Nat.eqb_spec (endIndex x) 0); [eauto|discriminate].
  - destruct (rest x) eqn:Hr; [eauto|discriminate].
Qed.

(** Whenever the pattern can reach a state that the continuation accepts,
    the matcher succeeds. *)
Lemma m_complete (r : regex) : forall (k : Continuation) x y z,
  Matches r x y -> k y = Some z -> exists z', m r k x = Some z'.
Proof.
  induction r as [s|cls n|cls|r IH|r1 IH1 r2 IH2| |]; intros k x y z H Hk;
    simpl in *.
  - destruct H as (Hr & Hi & Hc). destruct x as [i rx c]; simpl in *; subst rx.
    rewrite lit_m_app, <- Hi, <- Hc, <- state_eta. eauto.
  - destruct H as (u & Hr & Hl & Hu & Hi & Hc).
    destruct x as [i rx c]; simpl in *; subst rx n.
    rewrite times_m_app by assumption. rewrite <- Hi, <- Hc, <- state_eta. eauto.
  - destruct H as (u & Hr & Hne & Hu & Hi & Hc). rewrite Hr.
    apply plus_m_complete with (z := z); auto.
    now rewrite <- Hi, <- Hc, <- state_eta.
  - destruct H as (y0 & Hy0 & ->). eapply IH; eauto.
  - destruct H as (y1 & Hy1 & Hy2).
    destruct (@IH2 k y1 y z Hy2 Hk) as [z1 Hz1]. eapply IH1; eauto.
  - destruct H as (Hi & ->). rewrite Hi. simpl. eauto.
  - destruct H as (Hr & ->). rewrite Hr. eauto.
Qed.

(** [exec] returns the match at the leftmost start index that has one. *)
Lemma exec_from_inv (r : regex) : forall s i y,
  exec_from r i s = Some y ->
  exists u t, s = u ++ t /\
    m r Some (mkState (i + length u) t None) = Some y /\
    forall u' t', s = u' ++ t' -> length u' < length u ->
                  m r Some (mkState (i + length u') t' None) = None.
Proof.
  induction s as [|a s IH]; intros i y; simpl.
  - destruct (m r Some (mkState i [] None)) eqn:Hm; [|discriminate].
    intros H; injection H as ->. exists [], []. simpl.
    rewrite Nat.add_0_r. repeat split; auto. intros; lia.
  - destruct (m r Some (mkState i (a :: s) None)) eqn:Hm.
    + intros H; injection H as ->. exists [], (a :: s). simpl.
      rewrite Nat.add_0_r. repeat split; auto. intros; lia.
    + intros H. apply IH in H as (u & t & Hs & Hy & Hmin).
      exists (a :: u), t. simpl. rewrite Nat.add_succ_r. repeat split; auto.
      * now rewrite Hs.
      * intros [|b u'] t' Hs' Hlt; simpl in *.
        -- subst t'. now rewrite Nat.add_0_r.
        -- injection Hs' as -> Hs'. rewrite Nat.add_succ_r.
           apply Hmin; [assumption|lia].
Qed.

Lemma exec_from_none (r : regex) : forall s i,
  exec_from r i s = None ->
  forall u t, s = u ++ t -> m r Some (mkState (i + length u) t None) = None.
Proof.
  induction s as [|a s IH]; intros i; simpl.
  - destruct (m r Some (mkState i [] None)) eqn:Hm; [discriminate|].
    intros _ u t Hs. symmetry in Hs. apply app_eq_nil in Hs as [-> ->].
    simpl. now rewrite Nat.add_0_r.
  - destruct (m r Some (mkState i (a :: s) None)) eqn:Hm; [discriminate|].
    intros H [|b u] t Hs; simpl in *.
    + subst t. now rewrite Nat.add_0_r.
    + injection Hs as -> Hs. rewrite Nat.add_succ_r. exact (IH (S i) H u t Hs).
Qed.

Lemma exec_from_some (r : regex) s i u t y :
  s = u ++ t -> m r Some (mkState (i + length u) t None) = Some y ->
  exists y', exec_from r i s = Some y'.
Proof.
  intros Hs Hm. destruct (exec_from r i s) eqn:He; [eauto|].
  rewrite (@exec_from_none r s i He u t Hs) in Hm. discriminate.
Qed.

(** [test] succeeds exactly when the pattern matches from some index. *)
Lemma test_true (r : regex) (s : jsstring) :
  test r s = true <->
  exists u t y, s = u ++ t /\ Matches r (mkState (length u) t None) y.
Proof.
  unfold test, exec. split.
  - destruct (exec_from r 0 s) eqn:He; [|discriminate]. intros _.
    apply exec_from_inv in He as (u & t & Hs & Hm & _).
    apply m_sound in Hm as (y & Hy & _). simpl in Hy. eauto.
  - intros (u & t & y & Hs & Hy).
    destruct (@m_complete r Some _ _ _ Hy eq_refl) as [z Hz].
    destruct (@exec_from_some r s 0 u t _ Hs Hz) as [y' ->]. reflexivity.
Qed.

End RegExpFacts.

Import RegExpFacts.

(** ** URL/ID utilities *)

Lemma firstn_exact {A} (u t : list A) : firstn (length u) (u ++ t) = u.
Proof.
  rewrite firstn_app, Nat.sub_diag, firstn_all. simpl. apply app_nil_r.
Qed.

Lemma app_same_length {A} (u u' t t' : list A) :
  u ++ t = u' ++ t' -> length u = length u' -> u = u' /\ t = t'.
Proof.
  revert u'; induction u as [|a u IH]; intros [|a' u'] H Hl; simpl in *;
    try discriminate; auto.
  injection H as -> H. injection Hl as Hl.
  destruct (IH _ H Hl) as [-> ->]. auto.
Qed.

Lemma isValidArweaveId_spec (id : jsstring) :
  isValidArweaveId id = true <-> IdOK id.
Proof.
  unfold isValidArweaveId, arweaveIdRegex, IdOK. rewrite test_true. split.
  - intros (u & t & y & -> & z & (Hu & ->) & z' & Ht & Hr & ->).
    cbn [endIndex rest capture] in *.
    destruct Ht as (v & Ht & Hl & Hv & _). destruct u; [|discriminate].
    simpl in *. rewrite Hr, app_nil_r in Ht. subst t. auto.
  - intros [Hl Hid]. exists [], id, (mkState 43 [] None). split; [reflexivity|].
    eexists; split; [split; reflexivity|].
    exists (mkState 43 [] None). split; [|split; reflexivity].
    exists id. cbn [endIndex rest capture]. rewrite app_nil_r. auto.
Qed.

(** A literal followed by the group [([cls]{n})]. *)
Lemma lit_group_m (h : jsstring) cls n (k : Continuation) i s c z :
  m (Seq (Lit h) (Group (Times cls n))) k (mkState i s c) = Some z <->
  exists r post,
    s = h ++ r ++ post /\ length r = n /\
    Forall (fun a => in_class cls a = true) r /\
    k (mkState (i + length h + n) post (Some r)) = Some z.
Proof.
  cbn [m]. split.
  - intros H. apply lit_m_inv in H as (t & Hs & H).
    apply times_m_inv in H as (r & post & Ht & Hl & Hr & Hk).
    cbn [endIndex rest capture] in *. subst s t.
    exists r, post. repeat split; auto.
    replace (i + length h + n - (i + length h)) with (length r) in Hk by lia.
    now rewrite firstn_exact in Hk.
  - intros (r & post & -> & Hl & Hr & Hk). subst n.
    rewrite lit_m_app, times_m_app by assumption.
    cbn [endIndex rest capture].
    replace (i + length h + length r - (i + length h)) with (length r) by lia.
    now rewrite firstn_exact.
Qed.

Lemma hostPattern_m (h : jsstring) i s y :
  m (hostPattern h) Some (mkState i s None) = Some y <->
  exists r post, s = h ++ r ++ post /\ IdOK r /\
                 y = mkState (i + length h + 43) post (Some r).
Proof.
  unfold hostPattern. rewrite lit_group_m. unfold IdOK, isIdChar.
  split; intros (r & post & H); exists r, post.
  - destruct H as (? & ? & ? & [= <-]). auto.
  - destruct H as (? & [? ?] & ->). auto.
Qed.

(** [exec] on a host pattern captures the reference after the leftmost
    occurrence of the host that is followed by one. *)
Lemma exec_hostPattern_some (h url : jsstring) y :
  exec (hostPattern h) url = Some y ->
  exists r, capture y = Some r /\ FirstIdAfter h url r.
Proof.
  intros H. apply exec_from_inv in H as (pre & t & Hurl & Hm & Hmin).
  apply hostPattern_m in Hm as (r & post & -> & Hr & ->).
  exists r. split; [reflexivity|]. exists pre. split.
  - exists post. auto.
  - intros pre' r' (post' & Hurl' & Hr').
    destruct (le_lt_dec (length pre) (length pre')) as [|Hlt]; [assumption|].
    exfalso.
    specialize (Hmin pre' _ Hurl' Hlt).
    assert (Hs : exists y', m (hostPattern h) Some
                   (mkState (0 + length pre') (h ++ r' ++ post') None) = Some y')
      by (eexists; apply hostPattern_m; eauto).
    destruct Hs as [y' Hy']. congruence.
Qed.

Lemma exec_hostPattern_none (h url : jsstring) :
  exec (hostPattern h) url = None <-> forall pre r, ~ IdAfter h url pre r.
Proof.
  split.
  - intros H pre r (post & Hurl & Hr).
    pose proof (@exec_from_none (hostPattern h) url 0 H pre _ Hurl) as Hn.
    assert (Hs : exists y', m (hostPattern h) Some
                   (mkState (0 + length pre) (h ++ r ++ post) None) = Some y')
      by (eexists; apply hostPattern_m; eauto).
    destruct Hs as [y' Hy']. congruence.
  - intros H. destruct (exec (hostPattern h) url) eqn:He; [|reflexivity].
    apply exec_hostPattern_some in He as (r & _ & pre & Hpre & _).
    now apply H in Hpre.
Qed.

Lemma FirstIdAfter_functional (h url r r' : jsstring) :
  FirstIdAfter h url r -> FirstIdAfter h url r' -> r = r'.
Proof.
  intros (pre & Hpre & Hmin) (pre' & Hpre' & Hmin').
  pose proof (Hmin _ _ Hpre'). pose proof (Hmin' _ _ Hpre).
  destruct Hpre as (post & Hurl & Hr), Hpre' as (post' & Hurl' & Hr').
  rewrite Hurl in Hurl'.
  apply app_same_length in Hurl' as [_ Hurl']; [|lia].
  apply app_inv_head in Hurl'.
  apply app_same_length in Hurl' as [Hrr _]; [assumption|].
  destruct Hr, Hr'. congruence.
Qed.

Lemma exec_hostPattern_first (h url r : jsstring) :
  FirstIdAfter h url r ->
  exists y, exec (hostPattern h) url = Some y /\ capture y = Some r.
Proof.
  intros Hf. destruct (exec (hostPattern h) url) as [y|] eqn:He.
  - exists y. split; [reflexivity|].
    apply exec_hostPattern_some in He as (r' & Hc & Hf').
    now rewrite (FirstIdAfter_functional Hf Hf').
  - destruct Hf as (pre & Hpre & _).
    now apply (proj1 (exec_hostPattern_none h url) He) in Hpre.
Qed.

Lemma eol_m x y : m Eol Some x = Some y <-> rest x = [] /\ y = x.
Proof.
  cbn [m]. destruct (rest x); split.
  - intros [= <-]. auto.
  - intros [_ ->]. reflexivity.
  - discriminate.
  - intros [? _]. discriminate.
Qed.

Lemma trailingPattern_m i s y :
  m trailingPattern Some (mkState i s None) = Some y <->
  exists r, s = lit "/" ++ r /\ IdOK r /\
            y = mkState (i + 1 + 43) [] (Some r).
Proof.
  change (m trailingPattern Some)
    with (m (Seq (Lit (lit "/")) (Group (Times idClass 43))) (m Eol Some)).
  rewrite lit_group_m. unfold IdOK, isIdChar. split.
  - intros (r & post & -> & Hl & Hr & Hk). apply eol_m in Hk as [Hp ->].
    cbn [rest] in Hp. subst post. exists r. rewrite app_nil_r. auto.
  - intros (r & -> & [Hl Hr] & ->). exists r, []. rewrite app_nil_r.
    repeat split; auto.
Qed.

Lemma TrailingId_functional (url r r' : jsstring) :
  TrailingId url r -> TrailingId url r' -> r = r'.
Proof.
  intros (pre & Hurl & [Hl _]) (pre' & Hurl' & [Hl' _]).
  rewrite Hurl in Hurl'.
  assert (Hlen : length (pre ++ lit "/" ++ r) = length (pre' ++ lit "/" ++ r'))
    by now rewrite Hurl'.
  rewrite !length_app in Hlen.
  apply app_same_length in Hurl' as [_ Hurl']; [|lia].
  now apply app_inv_head in Hurl'.
Qed.

Lemma exec_trailingPattern_some (url : jsstring) y :
  exec trailingPattern url = Some y ->
  exists r, capture y = Some r /\ TrailingId url r.
Proof.
  intros H. apply exec_from_inv in H as (pre & t & Hurl & Hm & _).
  apply trailingPattern_m in Hm as (r & -> & Hr & ->).
  exists r. split; [reflexivity|]. exists pre. auto.
Qed.

Lemma exec_trailingPattern_none (url : jsstring) :
  exec trailingPattern url = None <-> forall r, ~ TrailingId url r.
Proof.
  split.
  - intros H r (pre & Hurl & Hr).
    pose proof (@exec_from_none trailingPattern url 0 H pre _ Hurl) as Hn.
    assert (Hs : exists y', m trailingPattern Some
                   (mkState (0 + length pre) (lit "/" ++ r) None) = Some y')
      by (eexists; apply trailingPattern_m; eauto).
    destruct Hs as [y' Hy']. congruence.
  - intros H. destruct (exec trailingPattern url) eqn:He; [|reflexivity].
    apply exec_trailingPattern_some in He as (r & _ & Hr).
    now apply H in Hr.
Qed.

(** Every pattern of [extractTransactionId] captures a well-formed
    reference, so the validity test in the loop never rejects a match. *)
Lemma extractTransactionId_unfold (url : jsstring) :
  extractTransactionId url =
  match exec (hostPattern (lit "arweave.net/")) url with
  | Some y => capture y
  | None =>
      match exec (hostPattern (lit "ar.io/")) url with
      | Some y => capture y
      | None =>
          match exec trailingPattern url with
          | Some y => capture y
          | None => None
          end
      end
  end.
Proof.
  unfold extractTransactionId, patterns.
  change (Seq (Lit (lit "arweave.net/")) (Group (Times idClass 43)))
    with (hostPattern (lit "arweave.net/")).
  change (Seq (Lit (lit "ar.io/")) (Group (Times idClass 43)))
    with (hostPattern (lit "ar.io/")).
  change (Seq (Lit (lit "/")) (Seq (Group (Times idClass 43)) Eol))
    with trailingPattern.
  cbn [extract_loop].
  destruct (exec (hostPattern (lit "arweave.net/")) url) as [y|] eqn:Ha.
  { apply exec_hostPattern_some in Ha as (r & Hc & _ & (_ & _ & Hr) & _).
    unfold group1_text. rewrite Hc.
    now rewrite (proj2 (isValidArweaveId_spec r) Hr). }
  destruct (exec (hostPattern (lit "ar.io/")) url) as [y|] eqn:Hb.
  { apply exec_hostPattern_some in Hb as (r & Hc & _ & (_ & _ & Hr) & _).
    unfold group1_text. rewrite Hc.
    now rewrite (proj2 (isValidArweaveId_spec r) Hr). }
  destruct (exec trailingPattern url) as [y|] eqn:Hc; [|reflexivity].
  apply exec_trailingPattern_some in Hc as (r & Hc & _ & _ & Hr).
  unfold group1_text. rewrite Hc.
  now rewrite (proj2 (isValidArweaveId_spec r) Hr).
Qed.

(** The loop only returns a capture that passed [isValidArweaveId]. *)
Lemma extract_loop_valid (ps : list regex) (url r : jsstring) :
  extract_loop ps url = Some r -> isValidArweaveId r = true.
Proof.
  induction ps as [|pattern ps IH]; simpl; [discriminate|].
  destruct (exec pattern url) as [y|]; [|assumption].
  destruct (isValidArweaveId (group1_text y)) eqn:Hv; [|assumption].
  unfold group1_text in Hv. intros Hc. now rewrite Hc in Hv.
Qed.

(** C5: [extractTransactionId] tries the three patterns in the order
    (a) [arweave.net/<43-char-id>], (b) [ar.io/<43-char-id>], (c) a trailing
    [/<43-char-id>], and returns the capture of the first one that matches
    (every capture is a 43-character reference over the id alphabet, so it
    passes [isValidArweaveId]); it returns none exactly when none of the
    three matches. *)
Theorem extractTransactionId_patterns_in_order (url : jsstring) :
  (forall r,
     extractTransactionId url = Some r <->
     FirstIdAfter (lit "arweave.net/") url r \/
     ((forall pre r', ~ IdAfter (lit "arweave.net/") url pre r') /\
      FirstIdAfter (lit "ar.io/") url r) \/
     ((forall pre r', ~ IdAfter (lit "arweave.net/") url pre r') /\
      (forall pre r', ~ IdAfter (lit "ar.io/") url pre r') /\
      TrailingId url r)) /\
  (extractTransactionId url = None <->
   (forall pre r', ~ IdAfter (lit "arweave.net/") url pre r') /\
   (forall pre r', ~ IdAfter (lit "ar.io/") url pre r') /\
   (forall r', ~ TrailingId url r')).
Proof.
  rewrite extractTransactionId_unfold.
  destruct (exec (hostPattern (lit "arweave.net/")) url) as [ya|] eqn:Ha.
  { apply exec_hostPattern_some in Ha as (ra & Hca & Hfa). rewrite Hca.
    split.
    - intros r. split.
      + intros [= <-]. auto.
      + intros [Hf|[[Hn _]|[Hn _]]].
        * f_equal. apply (FirstIdAfter_functional Hfa Hf).
        * destruct Hfa as (pre & Hpre & _). now apply Hn in Hpre.
        * destruct Hfa as (pre & Hpre & _). now apply Hn in Hpre.
    - split; [discriminate|]. intros [Hn _].
      destruct Hfa as (pre & Hpre & _). now apply Hn in Hpre. }
  pose proof (proj1 (exec_hostPattern_none _ _) Ha) as Hna.
  destruct (exec (hostPattern (lit "ar.io/")) url) as [yb|] eqn:Hb.
  { apply exec_hostPattern_some in Hb as (rb & Hcb & Hfb). rewrite Hcb.
    split.
    - intros r. split.
      + intros [= <-]. auto.
      + intros [(pre & Hpre & _)|[[_ Hf]|(_ & Hn & _)]].
        * now apply Hna in Hpre.
        * f_equal. apply (FirstIdAfter_functional Hfb Hf).
        * destruct Hfb as (pre & Hpre & _). now apply Hn in Hpre.
    - split; [discriminate|]. intros (_ & Hn & _).
      destruct Hfb as (pre & Hpre & _). now apply Hn in Hpre. }
  pose proof (proj1 (exec_hostPattern_none _ _) Hb) as Hnb.
  destruct (exec trailingPattern url) as [yc|] eqn:Hc.
  { apply exec_trailingPattern_some in Hc as (rc & Hcc & Htc). rewrite Hcc.
    split.
    - intros r. split.
      + intros [= <-]. auto.
      + intros [(pre & Hpre & _)|[[_ (pre & Hpre & _)]|(_ & _ & Ht)]].
        * now apply Hna in Hpre.
        * now apply Hnb in Hpre.
        * f_equal. apply (TrailingId_functional Htc Ht).
    - split; [discriminate|]. intros (_ & _ & Hn). now apply Hn in Htc. }
  pose proof (proj1 (exec_trailingPattern_none _) Hc) as Hnc.
  split.
  - intros r. split; [discriminate|].
    intros [(pre & Hpre & _)|[[_ (pre & Hpre & _)]|(_ & _ & Ht)]].
    + now apply Hna in Hpre.
    + now apply Hnb in Hpre.
    + now apply Hnc in Ht.
  - split; auto.
Qed.

(** C9: every value returned by [extractTransactionId] is a valid content
    reference: it passes [isValidArweaveId], has exactly 43 characters, and
    all of them are in [[A-Za-z0-9_-]]. *)
Theorem extractTransactionId_valid (url r : jsstring) :
  extractTransactionId url = Some r ->
  isValidArweaveId r = true /\ length r = 43 /\
  Forall (fun c => isIdChar c = true) r.
Proof.
  intros H. apply extract_loop_valid in H. split; [assumption|].
  now apply isValidArweaveId_spec.
Qed.

Lemma exec_from_skip (r : regex) i a (s : jsstring) :
  m r Some (mkState i (a :: s) None) = None ->
  exec_from r i (a :: s) = exec_from r (S i) s.
Proof. intros H. simpl. now rewrite H. Qed.

Lemma exec_from_hit (r : regex) i (s : jsstring) y :
  m r Some (mkState i s None) = Some y -> exec_from r i s = Some y.
Proof. intros H. destruct s; simpl; now rewrite H. Qed.

(** A host pattern whose literal has a character outside the id alphabet
    finds nothing in a run of id characters. *)
Lemma exec_from_id_run (h : jsstring) i (s : jsstring) c :
  In c h -> isIdChar c = false ->
  Forall (fun c => isIdChar c = true) s ->
  exec_from (hostPattern h) i s = None.
Proof.
  intros Hin Hc Hs. destruct (exec_from (hostPattern h) i s) eqn:He;
    [|reflexivity].
  apply exec_from_inv in He as (u & t & -> & Hm & _).
  apply hostPattern_m in Hm as (r & post & -> & _).
  rewrite !Forall_app in Hs. destruct Hs as (_ & Hh & _).
  rewrite Forall_forall in Hh. apply Hh in Hin. congruence.
Qed.

Ltac skip_prefix :=
  unfold exec, lit; cbn [list_ascii_of_string app];
  repeat (rewrite exec_from_skip by reflexivity).

Lemma exec_arweave_net_x (r post : jsstring) :
  IdOK r ->
  exec (hostPattern (lit "arweave.net/")) (lit "https://x.arweave.net/" ++ r ++ post)
  = Some (mkState 65 post (Some r)).
Proof.
  intros Hr. skip_prefix. apply exec_from_hit.
  apply (proj2 (hostPattern_m (lit "arweave.net/") 10
                  (lit "arweave.net/" ++ r ++ post) _)).
  exists r, post. auto.
Qed.

Lemma exec_ar_io_x (r : jsstring) :
  IdOK r ->
  exec (hostPattern (lit "arweave.net/")) (lit "https://x.ar.io/" ++ r) = None /\
  exec (hostPattern (lit "ar.io/")) (lit "https://x.ar.io/" ++ r)
  = Some (mkState 59 [] (Some r)).
Proof.
  intros Hr. split.
  - skip_prefix. apply exec_from_id_run with (c := "/"%char).
    + unfold lit; simpl; tauto.
    + reflexivity.
    + apply Hr.
  - skip_prefix. apply exec_from_hit.
    apply (proj2 (hostPattern_m (lit "ar.io/") 10 (lit "ar.io/" ++ r) _)).
    exists r, []. rewrite app_nil_r. auto.
Qed.

(** C6: round trip.  For every 43-character reference [r] over the id
    alphabet and every host [h] among [arweave.net] and [ar.io],
    [extractTransactionId ("https://x." + h + "/" + r)] is [r]. *)
Theorem extractTransactionId_round_trip (h r : jsstring) :
  length r = 43 -> Forall (fun c => isIdChar c = true) r ->
  h = lit "arweave.net" \/ h = lit "ar.io" ->
  extractTransactionId (lit "https://x." ++ h ++ lit "/" ++ r) = Some r.
Proof.
  intros Hl Hid Hh. assert (Hr : IdOK r) by (split; assumption).
  rewrite extractTransactionId_unfold. destruct Hh as [-> | ->].
  - pose proof (exec_arweave_net_x [] Hr) as E. rewrite app_nil_r in E.
    change (lit "https://x." ++ lit "arweave.net" ++ lit "/" ++ r)
      with (lit "https://x.arweave.net/" ++ r).
    now rewrite E.
  - destruct (exec_ar_io_x Hr) as [Ea Eb].
    change (lit "https://x." ++ lit "ar.io" ++ lit "/" ++ r)
      with (lit "https://x.ar.io/" ++ r).
    now rewrite Ea, Eb.
Qed.

Lemma extractTransactionId_round_trip_witness :
  extractTransactionId (lit "https://x." ++ lit "ar.io" ++ lit "/" ++
                        lit "abcdefghijklmnopqrstuvwxyzABCDEFGHIJKLMN0_-")
  = Some (lit "abcdefghijklmnopqrstuvwxyzABCDEFGHIJKLMN0_-").
Proof.
  apply (@extractTransactionId_round_trip (lit "ar.io")
           (lit "abcdefghijklmnopqrstuvwxyzABCDEFGHIJKLMN0_-")).
  - reflexivity.
  - repeat constructor.
  - right; reflexivity.
Defined.

(** C10: the host-qualified patterns are not anchored after the
    reference.  For a URL [https://x.arweave.net/<seg>] whose last segment
    has more than 43 id characters, [extractTransactionId] returns the first
    43 characters of the segment, not none. *)
Theorem extractTransactionId_long_segment (seg : jsstring) :
  Forall (fun c => isIdChar c = true) seg -> 43 < length seg ->
  extractTransactionId (lit "https://x.arweave.net/" ++ seg)
  = Some (firstn 43 seg).
Proof.
  intros Hid Hl. rewrite extractTransactionId_unfold.
  rewrite <- (firstn_skipn 43 seg) at 1.
  rewrite exec_arweave_net_x; [reflexivity|]. split.
  - rewrite length_firstn. lia.
  - rewrite <- (firstn_skipn 43 seg) in Hid. apply Forall_app in Hid. tauto.
Qed.

Lemma extractTransactionId_long_segment_witness :
  extractTransactionId
    (lit "https://x.arweave.net/" ++
     lit "abcdefghijklmnopqrstuvwxyzABCDEFGHIJKLMN0_-Z")
  = Some (lit "abcdefghijklmnopqrstuvwxyzABCDEFGHIJKLMN0_-").
Proof.
  apply (@extractTransactionId_long_segment
           (lit "abcdefghijklmnopqrstuvwxyzABCDEFGHIJKLMN0_-Z")).
  - repeat constructor.
  - vm_compute; lia.
Defined.

Lemma extractTransactionId_valid_witness :
  isValidArweaveId (lit "abcdefghijklmnopqrstuvwxyzABCDEFGHIJKLMN0_-") = true /\
  length (lit "abcdefghijklmnopqrstuvwxyzABCDEFGHIJKLMN0_-") = 43 /\
  Forall (fun c => isIdChar c = true)
    (lit "abcdefghijklmnopqrstuvwxyzABCDEFGHIJKLMN0_-").
Proof.
  apply (@extractTransactionId_valid
           (lit "https://arweave.net/abcdefghijklmnopqrstuvwxyzABCDEFGHIJKLMN0_-")).
  vm_compute. reflexivity.
Defined.

(** ** The form-level check *)

Lemma arweaveRegex_shape (url : jsstring) :
  test arweaveRegex url = true <-> ContentUrlShape url.
Proof.
  rewrite test_true. unfold arweaveRegex, ContentUrlShape. cbn [Matches]. split.
  - intros (u & t & y & -> & z1 & [Hu ->] & z2 & (H2 & _) & z3 &
            (sub & H3 & Hne3 & Hsub & _) & z4 & (H4 & _) & z5 &
            (seg & H5 & Hne5 & Hseg & _) & H6 & ->).
    cbn [endIndex rest] in *. destruct u; [|discriminate].
    exists sub, seg. rewrite H6, app_nil_r in H5.
    simpl. rewrite H2, H3, H4, H5. auto.
  - intros (sub & seg & -> & Hne3 & Hsub & Hne5 & Hseg).
    exists [], (lit "https://" ++ sub ++ lit ".arweave.net/" ++ seg),
      (mkState (8 + length sub + 13 + length seg) [] None).
    split; [reflexivity|].
    exists (mkState 0 (lit "https://" ++ sub ++ lit ".arweave.net/" ++ seg) None).
    split; [split; reflexivity|].
    exists (mkState 8 (sub ++ lit ".arweave.net/" ++ seg) None).
    split; [repeat split|].
    exists (mkState (8 + length sub) (lit ".arweave.net/" ++ seg) None).
    split; [exists sub; repeat split; assumption|].
    exists (mkState (8 + length sub + 13) seg None).
    split; [repeat split|].
    exists (mkState (8 + length sub + 13 + length seg) [] None).
    split; [|split; reflexivity].
    exists seg. cbn [endIndex rest capture]. rewrite app_nil_r.
    repeat split; assumption.
Qed.

(** C7: the form-level check accepts a string exactly when it has the shape
    [https://<sub>.arweave.net/<seg>] with [sub] and [seg] non-empty runs of
    [[a-zA-Z0-9_-]] and nothing before or after.  In particular
    [https://foo.arweave.net/<seg>] is accepted for every non-empty [seg]
    over that class (such as [abc123]); [http://foo.arweave.net/abc123] and
    [https://foo.arweave.net/] are rejected. *)
Theorem arweaveRegex_accepts :
  (forall url, test arweaveRegex url = true <-> ContentUrlShape url) /\
  (forall seg, seg <> [] -> Forall (fun c => isIdChar c = true) seg ->
               test arweaveRegex (lit "https://foo.arweave.net/" ++ seg) = true) /\
  test arweaveRegex (lit "https://foo.arweave.net/abc123") = true /\
  test arweaveRegex (lit "http://foo.arweave.net/abc123") = false /\
  test arweaveRegex (lit "https://foo.arweave.net/") = false.
Proof.
  split; [exact arweaveRegex_shape|].
  split; [|repeat split; vm_compute; reflexivity].
  intros seg Hne Hseg. apply arweaveRegex_shape.
  exists (lit "foo"), seg. repeat split; auto.
  - discriminate.
  - repeat constructor.
Qed.

Lemma arweaveRegex_accepts_witness :
  test arweaveRegex (lit "https://foo.arweave.net/" ++ lit "x_Y-9") = true.
Proof.
  apply (proj1 (proj2 arweaveRegex_accepts) (lit "x_Y-9")).
  - discriminate.
  - repeat constructor.
Defined.

(** The handler stops at the check, with no call made, when the URL does
    not have the shape. *)
Lemma handleMigration_rejects (w : World) (st : PageState) :
  selectedArns st <> [] -> arweaveUrl st <> [] ->
  ~ ContentUrlShape (arweaveUrl st) ->
  handleMigration w st =
  (mkPage (arnsNames st) (selectedArns st) (arweaveUrl st)
     (migrationResult st) (Some invalidUrlMessage) (isMigrating st), []).
Proof.
  intros Hs Hu Hshape. unfold handleMigration.
  destruct (selectedArns st); [contradiction|].
  destruct (arweaveUrl st) eqn:Eu; [contradiction|]. cbn [is_empty orb].
  destruct (test arweaveRegex (a0 :: j0)) eqn:Ht; [|reflexivity].
  apply arweaveRegex_shape in Ht. contradiction.
Qed.

(** ** The pattern of [migrateToArns] *)

Lemma txIdRegex_m_inv i s y :
  m txIdRegex Some (mkState i s None) = Some y ->
  exists seg, s = lit "/" ++ seg /\ seg <> [] /\
              Forall (fun c => isIdChar c = true) seg /\
              y = mkState (i + 1 + length seg) [] (Some seg).
Proof.
  unfold txIdRegex. cbn [m]. intros H.
  apply lit_m_inv in H as (t & Hs & H). cbn [endIndex rest capture] in *.
  apply plus_m_inv in H as (u & t' & -> & Hne & Hu & Hk).
  cbn [endIndex rest capture] in Hk.
  destruct t'; [|discriminate]. injection Hk as <-.
  exists u. rewrite app_nil_r in *. repeat split; auto.
  replace (i + 1 + length u - (i + 1)) with (length u) by lia.
  now rewrite firstn_all.
Qed.

Lemma txIdRegex_m i s y :
  m txIdRegex Some (mkState i s None) = Some y <->
  exists seg, s = lit "/" ++ seg /\ seg <> [] /\
              Forall (fun c => isIdChar c = true) seg /\
              y = mkState (i + 1 + length seg) [] (Some seg).
Proof.
  split; [apply txIdRegex_m_inv|].
  intros (seg & -> & Hne & Hseg & ->).
  destruct (m txIdRegex Some (mkState i (lit "/" ++ seg) None)) as [z|] eqn:Hm.
  - apply txIdRegex_m_inv in Hm as (seg' & E & _ & _ & ->).
    apply app_inv_head in E. now subst seg'.
  - exfalso. revert Hm. unfold txIdRegex. cbn [m].
    rewrite lit_m_app. cbn [endIndex rest capture].
    match goal with
    | |- plus_m ?p ?K ?i0 _ ?c = None -> _ =>
        assert (Hz : exists z', plus_m p K i0 (seg ++ []) c = Some z')
          by (eapply plus_m_complete; [exact Hne|exact Hseg|reflexivity])
    end.
    destruct Hz as [z' Hz']. rewrite app_nil_r in Hz'.
    intros Hm. rewrite Hm in Hz'. discriminate.
Qed.

Lemma isIdChar_slash : isIdChar "/" = false.
Proof. reflexivity. Qed.

(** The segment after the last slash is determined by the URL. *)
Lemma TrailingSegment_functional (url seg seg' : jsstring) :
  TrailingSegment url seg -> TrailingSegment url seg' -> seg = seg'.
Proof.
  intros (pre & -> & _ & Hseg) (pre' & E & _ & Hseg').
  revert pre' E. induction pre as [|a pre IH]; intros [|a' pre'] E;
    simpl in E.
  - congruence.
  - exfalso. injection E as _ E. rewrite E in Hseg.
    apply Forall_app in Hseg as [_ Hseg]. apply Forall_inv in Hseg.
    rewrite isIdChar_slash in Hseg. discriminate.
  - exfalso. injection E as _ E. rewrite <- E in Hseg'.
    apply Forall_app in Hseg' as [_ Hseg']. apply Forall_inv in Hseg'.
    rewrite isIdChar_slash in Hseg'. discriminate.
  - injection E as _ E. eauto.
Qed.

Lemma exec_txIdRegex_some (url : jsstring) y :
  exec txIdRegex url = Some y ->
  exists seg, capture y = Some seg /\ TrailingSegment url seg.
Proof.
  intros H. apply exec_from_inv in H as (pre & t & Hurl & Hm & _).
  apply txIdRegex_m in Hm as (seg & -> & Hne & Hseg & ->).
  exists seg. split; [reflexivity|]. exists pre. auto.
Qed.

Lemma exec_txIdRegex_none (url : jsstring) :
  exec txIdRegex url = None <-> forall seg, ~ TrailingSegment url seg.
Proof.
  split.
  - intros H seg (pre & Hurl & Hne & Hseg).
    pose proof (@exec_from_none txIdRegex url 0 H pre _ Hurl) as Hn.
    assert (Hs : exists y', m txIdRegex Some
                   (mkState (0 + length pre) (lit "/" ++ seg) None) = Some y')
      by (eexists; apply txIdRegex_m; eauto).
    destruct Hs as [y' Hy']. congruence.
  - intros H. destruct (exec txIdRegex url) eqn:He; [|reflexivity].
    apply exec_txIdRegex_some in He as (seg & _ & Hseg).
    now apply H in Hseg.
Qed.

Lemma exec_txIdRegex_segment (url seg : jsstring) :
  TrailingSegment url seg ->
  exists y, exec txIdRegex url = Some y /\ group1_text y = seg.
Proof.
  intros Hseg. destruct (exec txIdRegex url) as [y|] eqn:He.
  - exists y. split; [reflexivity|].
    apply exec_txIdRegex_some in He as (seg' & Hc & Hseg').
    unfold group1_text. rewrite Hc.
    apply (TrailingSegment_functional Hseg' Hseg).
  - now apply (proj1 (exec_txIdRegex_none url) He) in Hseg.
Qed.

(** ** Name directory lookup *)

Lemma owns_Owned (w : World) (walletAddress : jsstring)
    (entry : jsstring * ArnsRecord) :
  owns w walletAddress entry = true <-> Owned w walletAddress entry.
Proof.
  unfold owns, Owned.
  destruct (getInfo w (record_processId (snd entry))) as [antInfo|e]; split.
  - intros H. apply streq_eq in H. eauto.
  - intros (antInfo' & [= <-] & H). now apply streq_eq.
  - discriminate.
  - intros (? & ? & _). discriminate.
Qed.

(** The scan, from any accumulated list and any log: every entry is
    queried once, an entry is appended when its contract reports the queried
    owner, and an entry whose query throws changes nothing. *)
Lemma for_of_ownership (w : World) (walletAddress : jsstring)
    (records : list (jsstring * ArnsRecord)) :
  forall (acc : list ArnsName) (log : list event),
    for_of records (ownership_step w walletAddress) acc log =
    (Ok (acc ++ map name_of (filter (owns w walletAddress) records)),
     log ++ info_calls records).
Proof.
  induction records as [|[nm record] records IH]; intros acc log.
  - simpl. now rewrite !app_nil_r.
  - cbn [for_of]. unfold bind at 1.
    unfold ownership_step at 1, try_catch, bind, call.
    cbn [filter info_calls map]. unfold owns at 1. cbn [snd fst].
    destruct (getInfo w (record_processId record)) as [antInfo|e].
    + destruct (streq (Owner antInfo) walletAddress); unfold ret; rewrite IH;
        cbn [map]; unfold info_calls; rewrite <- !app_assoc; reflexivity.
    + unfold ret. rewrite IH. unfold info_calls.
      rewrite <- !app_assoc. reflexivity.
Qed.

(** With the registry fetched, the lookup is the scan of its entries. *)
Lemma getArnsNames_run (w : World) (walletAddress : jsstring)
    (records : list (jsstring * ArnsRecord)) :
  getArNSRecords w = Ok records ->
  run (getArnsNames w walletAddress) =
    (Ok (map name_of (filter (owns w walletAddress) records)),
     CallGetArNSRecords :: info_calls records).
Proof.
  intros Hfetch. unfold run, getArnsNames, try_catch, bind at 1, call.
  rewrite Hfetch. unfold bind. rewrite for_of_ownership. reflexivity.
Qed.

(** C1: given a registry snapshot, [getArnsNames] returns exactly the name
    records of the entries whose contract reports an owner equal, as a
    string, to the queried address, in the order of the snapshot; an entry
    whose ownership query throws is left out, and every entry of the
    snapshot is still queried. *)
Theorem getArnsNames_owned (w : World) (walletAddress : jsstring)
    (records : list (jsstring * ArnsRecord)) :
  getArNSRecords w = Ok records ->
  run (getArnsNames w walletAddress) =
    (Ok (map name_of (filter (owns w walletAddress) records)),
     CallGetArNSRecords :: info_calls records) /\
  (forall entry, owns w walletAddress entry = true <->
                 Owned w walletAddress entry) /\
  (forall n, (exists names, fst (run (getArnsNames w walletAddress)) = Ok names
                            /\ In n names) <->
             exists entry, In entry records /\ Owned w walletAddress entry /\
                           n = name_of entry).
Proof.
  intros Hfetch. pose proof (getArnsNames_run w walletAddress Hfetch) as Hrun.
  split; [exact Hrun|]. split; [intros; apply owns_Owned|].
  intros n. rewrite Hrun. cbn [fst]. split.
  - intros (names & [= <-] & Hin). apply in_map_iff in Hin as (entry & <- & Hin).
    apply filter_In in Hin as [Hin Ho]. apply owns_Owned in Ho. eauto.
  - intros (entry & Hin & Ho & ->). eexists; split; [reflexivity|].
    apply in_map, filter_In. split; [assumption|]. now apply owns_Owned.
Qed.

(** The example of the specification: [A] owned by [X], [B] by [Y], [C]
    throwing; the names owned by [X] are exactly [A], also when the
    throwing entry comes first in the scan. *)
Lemma getArnsNames_owned_witness :
  run (getArnsNames (abcWorld (lit "production")) (lit "X")) =
    (Ok [mkName (lit "A") (lit "pA") (Some (lit "@"))],
     [CallGetArNSRecords; CallGetInfo (lit "pC"); CallGetInfo (lit "pA");
      CallGetInfo (lit "pB")]).
Proof.
  exact (proj1 (@getArnsNames_owned (abcWorld (lit "production")) (lit "X") _
                  eq_refl)).
Defined.

(** C4 as stated fails: in development mode a failed registry fetch
    returns the list of mock names instead of raising. *)
Lemma getArnsNames_mock_fallback :
  ~ (forall (w : World) (walletAddress : jsstring) (e : thrown),
       getArNSRecords w = Throw e ->
       fst (run (getArnsNames w walletAddress)) =
       Throw (ErrorObj fetchFailedMessage)).
Proof.
  intros H.
  specialize (H (downWorld (lit "development")) (lit "X") _ eq_refl).
  discriminate H.
Qed.

(** C4, amended: [getArnsNames] raises only the directory-unavailable
    error, and raises it exactly when the registry fetch fails outside
    development mode; when the fetch fails in development mode it returns the
    two mock name records. *)
Theorem getArnsNames_unavailable (w : World) (walletAddress : jsstring) :
  (fst (run (getArnsNames w walletAddress)) = Throw (ErrorObj fetchFailedMessage)
   <-> (exists e, getArNSRecords w = Throw e) /\
       NODE_ENV w <> lit "development") /\
  (forall e, fst (run (getArnsNames w walletAddress)) = Throw e ->
             e = ErrorObj fetchFailedMessage) /\
  ((exists e, getArNSRecords w = Throw e) ->
   NODE_ENV w = lit "development" ->
   run (getArnsNames w walletAddress) = (Ok mockArnsNames, [CallGetArNSRecords])).
Proof.
  destruct (getArNSRecords w) as [records|e0] eqn:Hfetch.
  - rewrite (getArnsNames_run w walletAddress Hfetch). cbn [fst]. repeat split; try discriminate.
    + intros [[e He] _]. discriminate.
    + intros [e He]. discriminate.
  - unfold run, getArnsNames, try_catch, bind, call. rewrite Hfetch.
    destruct (streq (NODE_ENV w) (lit "development")) eqn:Henv;
      cbn [fst ret throw]; unfold ret, throw; cbn [fst].
    + apply streq_eq in Henv. repeat split; try discriminate; auto.
      intros [_ Hne]. contradiction.
    + apply streq_neq in Henv. repeat split; eauto; try congruence.
Qed.

Lemma getArnsNames_unavailable_witness :
  run (getArnsNames (downWorld (lit "development")) (lit "X")) =
    (Ok mockArnsNames, [CallGetArNSRecords]).
Proof.
  apply (proj2 (proj2 (getArnsNames_unavailable
                         (downWorld (lit "development")) (lit "X")))).
  - eexists. reflexivity.
  - reflexivity.
Defined.

(** ** Migration executor *)

(** The [try] block, step by step. *)
Lemma migrate_body_run (w : World) (processId undername arweaveUrl : jsstring) :
  run (migrate_body w processId undername arweaveUrl) =
  match exec txIdRegex arweaveUrl with
  | None => (Throw (ErrorObj (lit "Invalid Arweave URL format")), [])
  | Some y =>
      if arweaveWallet w then
        match newArweaveSigner w with
        | Throw e => (Throw e, [])
        | Ok _ =>
        match initANT w processId with
        | Throw e => (Throw e, [])
        | Ok _ =>
        let sub := submission w processId undername arweaveUrl (group1_text y) in
        match setUndernameRecord w processId
                (mkParams undername (group1_text y) 3600)
                (migrationTags w arweaveUrl) with
        | Throw e => (Throw e, [sub])
        | Ok result =>
            match getArNSRecords w with
            | Throw e => (Throw e, [sub; CallGetArNSRecords])
            | Ok records =>
                if is_empty (find_arnsName processId records)
                then (Throw (ErrorObj
                        (lit "Could not find ARNS name for the given process ID")),
                      [sub; CallGetArNSRecords])
                else (Ok (mkResult
                            (formatArnsUrl undername
                               (find_arnsName processId records))
                            (or_default (id result) (lit "pending"))),
                      [sub; CallGetArNSRecords])
            end
        end
        end
        end
      else (Throw (ErrorObj (lit "ArConnect wallet not found")), [])
  end.
Proof.
  unfold run, migrate_body, submission, formatArnsUrl.
  destruct (exec txIdRegex arweaveUrl) as [y|]; [|reflexivity].
  destruct (arweaveWallet w); [|reflexivity]. cbn [negb].
  unfold bind, call, construct. cbn [app].
  destruct (newArweaveSigner w) as [signer|e]; [|reflexivity].
  destruct (initANT w processId) as [ant|e]; [|reflexivity].
  destruct (setUndernameRecord w processId _ _) as [result|e]; [|reflexivity].
  destruct (getArNSRecords w) as [records|e]; [|reflexivity].
  destruct (is_empty (find_arnsName processId records)); reflexivity.
Qed.

Lemma migrateToArns_run (w : World) (processId undername arweaveUrl : jsstring) :
  run (migrateToArns w processId undername arweaveUrl) =
  match run (migrate_body w processId undername arweaveUrl) with
  | (Ok res, log) => (Ok res, log)
  | (Throw e, log) =>
      if streq (NODE_ENV w) (lit "development") then
        (Ok (mkResult
               (if streq undername (lit "@")
                then lit "https://example-arns.ar.io"
                else lit "https://" ++ undername ++ lit "_example-arns.ar.io")
               (lit "mock-migration-tx-id")), log)
      else (Throw (ErrorObj (lit "Migration failed: " ++ message_of e)), log)
  end.
Proof.
  unfold run, migrateToArns, try_catch.
  destruct (migrate_body w processId undername arweaveUrl []) as [[res|e] log];
    [reflexivity|].
  destruct (streq (NODE_ENV w) (lit "development")); reflexivity.
Qed.

Lemma find_arnsName_In (processId : jsstring)
    (records : list (jsstring * ArnsRecord)) :
  find_arnsName processId records <> [] ->
  exists record, In (find_arnsName processId records, record) records /\
                 record_processId record = processId.
Proof.
  induction records as [|[nm record] records IH]; simpl; [congruence|].
  destruct (streq (record_processId record) processId) eqn:E.
  - apply streq_eq in E. eauto.
  - intros H. destruct (IH H) as (record' & Hin & Hp). eauto.
Qed.

Lemma migrateToArns_log_head
    (w : World) (processId undername arweaveUrl seg : jsstring) :
  TrailingSegment arweaveUrl seg -> arweaveWallet w = true ->
  Constructed w processId ->
  exists log,
    snd (run (migrateToArns w processId undername arweaveUrl)) =
    submission w processId undername arweaveUrl seg :: log.
Proof.
  intros Hseg Hw [Hs Ha]. destruct (exec_txIdRegex_segment Hseg) as (y & He & Hg).
  rewrite migrateToArns_run, migrate_body_run, He, Hw, Hs, Ha, Hg. cbv zeta.
  destruct (setUndernameRecord w processId _ _).
  - destruct (getArNSRecords w).
    + destruct (is_empty _); [|eexists; reflexivity].
      destruct (streq (NODE_ENV w) _); eexists; reflexivity.
    + destruct (streq (NODE_ENV w) _); eexists; reflexivity.
  - destruct (streq (NODE_ENV w) _); eexists; reflexivity.
Qed.

Lemma migrateToArns_log_nil
    (w : World) (processId undername arweaveUrl : jsstring) :
  arweaveWallet w = false ->
  snd (run (migrateToArns w processId undername arweaveUrl)) = [].
Proof.
  intros Hw. rewrite migrateToArns_run, migrate_body_run, Hw.
  destruct (exec txIdRegex arweaveUrl);
    destruct (streq (NODE_ENV w) _); reflexivity.
Qed.

(** C2 as stated fails: [migrateToArns] does not go through
    [extractTransactionId].  On [https://foo.arweave.net/abc123] the
    extraction of the utilities returns none, while the migration takes
    [abc123], submits it and succeeds. *)
Lemma migrateToArns_not_extractTransactionId :
  extractTransactionId (lit "https://foo.arweave.net/abc123") = None /\
  run (migrateToArns (barWorld (lit "production") (mkWrite (Some (lit "T1"))))
         (lit "C1") (lit "@") (lit "https://foo.arweave.net/abc123")) =
    (Ok (mkResult (lit "https://bar.ar.io") (lit "T1")),
     [CallSetUndernameRecord (lit "C1")
        (mkParams (lit "@") (lit "abc123") 3600)
        [mkTag (lit "App-Name") (lit "ARNS-Migration-Tool");
         mkTag (lit "Migration-Source") (lit "https://foo.arweave.net/abc123");
         mkTag (lit "Timestamp") (lit "2024-01-01T00:00:00.000Z")];
      CallGetArNSRecords]).
Proof. split; vm_compute; reflexivity. Qed.

(** C2, amended: [migrateToArns] takes as content reference the non-empty
    run of [[a-zA-Z0-9_-]] characters between the last slash and the end of
    the URL, of any length (pattern [/\/([a-zA-Z0-9_-]+)$/]), and, when the
    wallet is present and the signer and the contract client are
    constructed, submits that.  When the URL has no such trailing segment
    its [try] block throws the invalid-URL error before any call, and
    outside development mode the invocation then fails with [Migration
    failed: Invalid Arweave URL format]; with a trailing segment the [try]
    block does not end that way, unless the construction of the signer or of
    the contract client itself throws that very error. *)
Theorem migrateToArns_extraction
    (w : World) (processId undername arweaveUrl : jsstring) :
  ((forall seg, ~ TrailingSegment arweaveUrl seg) ->
   run (migrate_body w processId undername arweaveUrl) =
     (Throw (ErrorObj (lit "Invalid Arweave URL format")), [])) /\
  (~ ConstructionThrows w processId
       (ErrorObj (lit "Invalid Arweave URL format")) ->
   (run (migrate_body w processId undername arweaveUrl) =
      (Throw (ErrorObj (lit "Invalid Arweave URL format")), [])
    <-> forall seg, ~ TrailingSegment arweaveUrl seg)) /\
  ((forall seg, ~ TrailingSegment arweaveUrl seg) ->
   NODE_ENV w <> lit "development" ->
   run (migrateToArns w processId undername arweaveUrl) =
     (Throw (ErrorObj (lit "Migration failed: Invalid Arweave URL format")), [])) /\
  (forall seg, TrailingSegment arweaveUrl seg -> arweaveWallet w = true ->
     Constructed w processId ->
     exists log,
       snd (run (migrateToArns w processId undername arweaveUrl)) =
       submission w processId undername arweaveUrl seg :: log).
Proof.
  assert (Hnone : (forall seg, ~ TrailingSegment arweaveUrl seg) ->
                  run (migrate_body w processId undername arweaveUrl) =
                  (Throw (ErrorObj (lit "Invalid Arweave URL format")), [])).
  { intros Hn. apply exec_txIdRegex_none in Hn.
    now rewrite migrate_body_run, Hn. }
  split; [exact Hnone|]. split; [|split].
  - intros Hc. split; [|exact Hnone]. rewrite migrate_body_run.
    destruct (exec txIdRegex arweaveUrl) as [y|] eqn:He;
      [|intros _; now apply exec_txIdRegex_none].
    destruct (arweaveWallet w); [|discriminate].
    destruct (newArweaveSigner w) as [[]|e1] eqn:Hs.
    + destruct (initANT w processId) as [[]|e2] eqn:Ha.
      * cbv zeta.
        destruct (setUndernameRecord w processId _ _); [|discriminate].
        destruct (getArNSRecords w); [|discriminate].
        destruct (is_empty _); discriminate.
      * intros [= ->]. exfalso. apply Hc. right. split; [exact Hs|exact Ha].
    + intros [= ->]. exfalso. apply Hc. left. exact Hs.
  - intros Hn Henv. rewrite migrateToArns_run, (Hnone Hn).
    apply streq_neq in Henv. now rewrite Henv.
  - intros seg Hseg Hw Hc. now apply migrateToArns_log_head.
Qed.

Lemma migrateToArns_extraction_witness :
  exists log,
    snd (run (migrateToArns (barWorld (lit "production") (mkWrite None))
                (lit "C1") (lit "www") (lit "https://foo.arweave.net/abc123"))) =
    submission (barWorld (lit "production") (mkWrite None))
      (lit "C1") (lit "www") (lit "https://foo.arweave.net/abc123")
      (lit "abc123") :: log.
Proof.
  apply (proj2 (proj2 (proj2 (migrateToArns_extraction
                         (barWorld (lit "production") (mkWrite None))
                         (lit "C1") (lit "www")
                         (lit "https://foo.arweave.net/abc123"))))).
  - exists (lit "https://foo.arweave.net"). split; [reflexivity|].
    split; [discriminate|repeat constructor].
  - reflexivity.
  - split; reflexivity.
Defined.

(** C3 as stated fails: in development mode an invocation whose
    submission throws returns a mock result. *)
Lemma migrateToArns_mock_result :
  setUndernameRecord (downWorld (lit "development")) (lit "C1")
    (mkParams (lit "@") (lit "abc123") 3600)
    (migrationTags (downWorld (lit "development"))
       (lit "https://foo.arweave.net/abc123"))
  = Throw (ErrorObj (lit "network error")) /\
  run (migrateToArns (downWorld (lit "development")) (lit "C1") (lit "@")
         (lit "https://foo.arweave.net/abc123")) =
    (Ok (mkResult (lit "https://example-arns.ar.io")
           (lit "mock-migration-tx-id")),
     [submission (downWorld (lit "development")) (lit "C1") (lit "@")
        (lit "https://foo.arweave.net/abc123") (lit "abc123")]).
Proof. split; vm_compute; reflexivity. Qed.

(** C3, amended: when the submission step is reached (the URL has a
    trailing segment, the wallet is present, the signer and the contract
    client are constructed) and throws, outside development mode the
    invocation throws [Migration failed: <message>] after that single
    submission (no retry, no further call) and returns no result; in
    development mode it returns the mock result instead. *)
Theorem migrateToArns_submission_failed
    (w : World) (processId undername arweaveUrl seg : jsstring) (e : thrown) :
  TrailingSegment arweaveUrl seg ->
  arweaveWallet w = true ->
  Constructed w processId ->
  setUndernameRecord w processId (mkParams undername seg 3600)
    (migrationTags w arweaveUrl) = Throw e ->
  (NODE_ENV w <> lit "development" ->
   run (migrateToArns w processId undername arweaveUrl) =
     (Throw (ErrorObj (lit "Migration failed: " ++ message_of e)),
      [submission w processId undername arweaveUrl seg])) /\
  (NODE_ENV w = lit "development" ->
   run (migrateToArns w processId undername arweaveUrl) =
     (Ok (mkResult
            (if streq undername (lit "@")
             then lit "https://example-arns.ar.io"
             else lit "https://" ++ undername ++ lit "_example-arns.ar.io")
            (lit "mock-migration-tx-id")),
      [submission w processId undername arweaveUrl seg])).
Proof.
  intros Hseg Hw [Hs Ha] Hsub.
  destruct (exec_txIdRegex_segment Hseg) as (y & He & Hg).
  rewrite migrateToArns_run, migrate_body_run, He, Hw, Hs, Ha, Hg. cbv zeta.
  rewrite Hsub. split; intros Henv.
  - apply streq_neq in Henv. now rewrite Henv.
  - apply streq_eq in Henv. now rewrite Henv.
Qed.

Lemma migrateToArns_submission_failed_witness :
  run (migrateToArns (downWorld (lit "production")) (lit "C1") (lit "@")
         (lit "https://foo.arweave.net/abc123")) =
    (Throw (ErrorObj (lit "Migration failed: network error")),
     [submission (downWorld (lit "production")) (lit "C1") (lit "@")
        (lit "https://foo.arweave.net/abc123") (lit "abc123")]).
Proof.
  apply (@migrateToArns_submission_failed (downWorld (lit "production"))
           (lit "C1") (lit "@") (lit "https://foo.arweave.net/abc123")
           (lit "abc123") (ErrorObj (lit "network error"))).
  - exists (lit "https://foo.arweave.net"). split; [reflexivity|].
    split; [discriminate|repeat constructor].
  - reflexivity.
  - split; reflexivity.
  - reflexivity.
  - discriminate.
Defined.

Lemma or_default_spec (v : option jsstring) (d : jsstring) :
  (forall t, v = Some t -> t <> [] -> or_default v d = t) /\
  (v = None \/ v = Some [] -> or_default v d = d).
Proof.
  split.
  - intros t -> Ht. destruct t; [contradiction|reflexivity].
  - intros [-> | ->]; reflexivity.
Qed.

Lemma formatArnsUrl_spec (undername arnsName : jsstring) :
  (undername = lit "@" \/ undername = [] ->
   formatArnsUrl undername arnsName = lit "https://" ++ arnsName ++ lit ".ar.io") /\
  (undername <> lit "@" -> undername <> [] ->
   formatArnsUrl undername arnsName =
   lit "https://" ++ undername ++ lit "_" ++ arnsName ++ lit ".ar.io").
Proof.
  unfold formatArnsUrl. split.
  - intros [-> | ->]; reflexivity.
  - intros H1 H2. apply streq_neq in H1. rewrite H1.
    destruct undername; [contradiction|reflexivity].
Qed.

(** C8: when the migration completes (the [try] block returns), the
    invocation returns that result, and it is formatted from the resolved
    name, the first registry entry controlled by the contract, and the
    sub-name: [https://<name>.ar.io] when the sub-name is [@] or empty,
    [https://<subname>_<name>.ar.io] otherwise; its transaction id is the
    one reported by the submission, or [pending] when none (or an empty
    one) was reported. *)
Theorem migrateToArns_done
    (w : World) (processId undername arweaveUrl : jsstring)
    (res : MigrationResult) :
  fst (run (migrate_body w processId undername arweaveUrl)) = Ok res ->
  fst (run (migrateToArns w processId undername arweaveUrl)) = Ok res /\
  exists seg result records arnsName,
    TrailingSegment arweaveUrl seg /\
    setUndernameRecord w processId (mkParams undername seg 3600)
      (migrationTags w arweaveUrl) = Ok result /\
    getArNSRecords w = Ok records /\
    arnsName = find_arnsName processId records /\
    (exists record, In (arnsName, record) records /\
                    record_processId record = processId) /\
    (undername = lit "@" \/ undername = [] ->
     arnsUrl res = lit "https://" ++ arnsName ++ lit ".ar.io") /\
    (undername <> lit "@" -> undername <> [] ->
     arnsUrl res =
     lit "https://" ++ undername ++ lit "_" ++ arnsName ++ lit ".ar.io") /\
    (forall t, id result = Some t -> t <> [] -> transactionId res = t) /\
    (id result = None \/ id result = Some [] ->
     transactionId res = lit "pending").
Proof.
  intros Hbody. split.
  - rewrite migrateToArns_run.
    destruct (run (migrate_body w processId undername arweaveUrl))
      as [[res'|e] log]; [exact Hbody|discriminate].
  - rewrite migrate_body_run in Hbody.
    destruct (exec txIdRegex arweaveUrl) as [y|] eqn:He; [|discriminate].
    apply exec_txIdRegex_some in He as (seg & Hc & Hseg).
    assert (Hg : group1_text y = seg) by (unfold group1_text; now rewrite Hc).
    rewrite Hg in Hbody. clear Hc Hg.
    destruct (arweaveWallet w); [|discriminate].
    destruct (newArweaveSigner w) as [signer|]; [|discriminate].
    destruct (initANT w processId) as [ant|]; [|discriminate].
    cbv zeta in Hbody.
    destruct (setUndernameRecord w processId _ _) as [result|] eqn:Hsub;
      [|discriminate].
    destruct (getArNSRecords w) as [records|] eqn:Hfetch; [|discriminate].
    destruct (is_empty (find_arnsName processId records)) eqn:Hname;
      [discriminate|].
    cbn [fst] in Hbody. injection Hbody as <-. cbn [arnsUrl transactionId].
    exists seg, result, records, (find_arnsName processId records).
    repeat split; auto.
    + apply find_arnsName_In. intros E. rewrite E in Hname. discriminate.
    + apply formatArnsUrl_spec.
    + apply formatArnsUrl_spec.
    + apply or_default_spec.
    + apply or_default_spec.
Qed.

(** The end-to-end scenario of the specification: [bar] controlled by
    [C1], a submission that reports [T1]. *)
Lemma migrateToArns_done_witness :
  fst (run (migrateToArns (barWorld (lit "production") (mkWrite (Some (lit "T1"))))
              (lit "C1") (lit "@")
              (lit "https://sub.arweave.net/abcdefghijklmnopqrstuvwxyzABCDEFGHIJKLMN0_-")))
  = Ok (mkResult (lit "https://bar.ar.io") (lit "T1")).
Proof.
  apply (@migrateToArns_done
           (barWorld (lit "production") (mkWrite (Some (lit "T1"))))
           (lit "C1") (lit "@")
           (lit "https://sub.arweave.net/abcdefghijklmnopqrstuvwxyzABCDEFGHIJKLMN0_-")
           (mkResult (lit "https://bar.ar.io") (lit "T1"))).
  vm_compute. reflexivity.
Defined.

Example format_root :
  run (migrateToArns (barWorld (lit "production") (mkWrite (Some (lit "T0"))))
         (lit "C0") (lit "@") (lit "https://sub.arweave.net/abc")) =
    (Ok (mkResult (lit "https://foo.ar.io") (lit "T0")),
     [submission (barWorld (lit "production") (mkWrite (Some (lit "T0"))))
        (lit "C0") (lit "@") (lit "https://sub.arweave.net/abc") (lit "abc");
      CallGetArNSRecords]).
Proof. vm_compute. reflexivity. Qed.

Example format_undername :
  fst (run (migrateToArns (barWorld (lit "production") (mkWrite None))
              (lit "C0") (lit "www") (lit "https://sub.arweave.net/abc"))) =
    Ok (mkResult (lit "https://www_foo.ar.io") (lit "pending")).
Proof. vm_compute. reflexivity. Qed.

(** * Further properties of the code *)

(** ** Wallet adapter *)

(** X1: [connectWallet] returns an address exactly when the wallet is
    present, grants the two permissions and reports an active address, and
    then returns that address; every failure, whatever was thrown inside, is
    raised as the one generic connection error; and when the permission
    request is rejected the address is never asked for. *)
Theorem connectWallet_outcome (wallet : option Wallet) :
  (forall address,
     fst (connectWallet wallet) = Ok address <->
     exists wl, wallet = Some wl /\
                (exists u, connect wl walletPermissions = Ok u) /\
                getActiveAddress wl = Ok address) /\
  (forall e, fst (connectWallet wallet) = Throw e ->
             e = ErrorObj connectFailedMessage) /\
  (forall wl e, wallet = Some wl -> connect wl walletPermissions = Throw e ->
                snd (connectWallet wallet) = [WalletConnect walletPermissions]).
Proof.
  unfold connectWallet, connectWallet_body.
  destruct wallet as [wl|].
  - destruct (connect wl walletPermissions) as [u|e0] eqn:Hc;
      [destruct (getActiveAddress wl) as [a|e1] eqn:Ha|];
      cbn [fst snd]; (split; [|split]).
    + intros address. split.
      * intros [= <-]. exists wl. eauto.
      * intros (wl' & [= <-] & _ & Ha'). congruence.
    + discriminate.
    + intros wl' e [= <-]. congruence.
    + intros address. split; [discriminate|].
      intros (wl' & [= <-] & _ & Ha'). congruence.
    + congruence.
    + intros wl' e [= <-]. congruence.
    + intros address. split; [discriminate|].
      intros (wl' & [= <-] & [u Hu] & _). congruence.
    + congruence.
    + reflexivity.
  - cbn [fst snd]. split; [|split].
    + intros address. split; [discriminate|].
      intros (wl & Hwl & _). discriminate.
    + congruence.
    + discriminate.
Qed.

Lemma connectWallet_outcome_witness :
  snd (connectWallet
         (Some (mkWallet (fun _ => Throw (ErrorObj (lit "User cancelled")))
                  (Ok (lit "X"))))) =
  [WalletConnect walletPermissions].
Proof.
  apply (proj2 (proj2 (connectWallet_outcome
           (Some (mkWallet (fun _ => Throw (ErrorObj (lit "User cancelled")))
                    (Ok (lit "X"))))))
           (mkWallet (fun _ => Throw (ErrorObj (lit "User cancelled")))
              (Ok (lit "X")))
           (ErrorObj (lit "User cancelled"))); reflexivity.
Defined.

Lemma getWalletAddress_log (wallet : option Wallet) :
  forall permissions,
    ~ In (WalletConnect permissions) (snd (getWalletAddress wallet)).
Proof.
  unfold getWalletAddress, getWalletAddress_body.
  destruct wallet as [wl|]; [destruct (getActiveAddress wl)|];
    cbn [snd In]; intros permissions H; intuition discriminate.
Qed.

(** X2: [getWalletAddress] never throws and never asks for permissions;
    it returns [null] exactly when there is no wallet or the wallet fails to
    report an address. *)
Theorem getWalletAddress_silent (wallet : option Wallet) :
  (forall e, fst (getWalletAddress wallet) <> Throw e) /\
  (forall permissions,
     ~ In (WalletConnect permissions) (snd (getWalletAddress wallet))) /\
  (fst (getWalletAddress wallet) = Ok None <->
   wallet = None \/
   exists wl e, wallet = Some wl /\ getActiveAddress wl = Throw e).
Proof.
  split; [|split; [apply getWalletAddress_log|]];
    unfold getWalletAddress, getWalletAddress_body;
    destruct wallet as [wl|];
    [destruct (getActiveAddress wl) as [a|e0] eqn:Ha| |
     destruct (getActiveAddress wl) as [a|e0] eqn:Ha|]; cbn [fst].
  - discriminate.
  - discriminate.
  - discriminate.
  - split; [discriminate|].
    intros [H|(wl' & e & [= <-] & Ha')]; congruence.
  - split; [|reflexivity]. intros _. right. eauto.
  - split; auto.
Qed.

(** ** Connection handlers of the page *)

(** X4: [checkWalletConnection] never asks for permissions, marks the
    page connected only with a non-empty address, and otherwise leaves the
    connection state as it was. *)
Theorem checkWalletConnection_silent (wallet : option Wallet) (c : ConnState) :
  (forall permissions,
     ~ In (WalletConnect permissions) (snd (checkWalletConnection wallet c))) /\
  ((exists address,
      fst (getWalletAddress wallet) = Ok (Some address) /\ address <> [] /\
      fst (checkWalletConnection wallet c) =
      mkConn true address (isLoading c) (isLoadingArns c)) \/
   fst (checkWalletConnection wallet c) = c) /\
  ((walletConnected c = true -> walletAddress c <> []) ->
   walletConnected (fst (checkWalletConnection wallet c)) = true ->
   walletAddress (fst (checkWalletConnection wallet c)) <> []).
Proof.
  pose proof (getWalletAddress_log wallet) as Hlog.
  unfold checkWalletConnection.
  destruct (getWalletAddress wallet) as [[[[|a address]|]|e] log];
    cbn [fst snd] in *; (split; [exact Hlog|]); split; auto.
  left. exists (a :: address). repeat split. discriminate.
  intros _ _. discriminate.
Qed.

(** X5: after [handleConnectWallet] the loading flag is off, and either
    the page is connected with the address the wallet reported and no error
    is shown, or the connection state is as before and the error shown is the
    generic connection error: the message thrown inside and the handler's own
    fallback text are never shown. *)
Theorem handleConnectWallet_outcome (wallet : option Wallet)
    (c : ConnState) (st : PageState) :
  let c' := fst (fst (handleConnectWallet wallet c st)) in
  let st' := snd (fst (handleConnectWallet wallet c st)) in
  isLoading c' = false /\
  ((error st' = None /\ walletConnected c' = true /\
    fst (connectWallet wallet) = Ok (walletAddress c')) \/
   (error st' = Some connectFailedMessage /\
    walletConnected c' = walletConnected c /\
    walletAddress c' = walletAddress c /\
    exists e, fst (connectWallet wallet) = Throw e)).
Proof.
  unfold handleConnectWallet, connectWallet.
  destruct (connectWallet_body wallet) as [[address|e] log]; cbn; split; eauto.
  right. repeat split; eauto.
Qed.

(** ** Name directory lookup, further *)



(** X7: every name record returned by [getArnsNames], from the registry
    or from the development fallback, carries a non-empty sub-name (a
    missing or empty one in the registry has been replaced by the root
    [@]). *)
Theorem getArnsNames_undername_defaulted (w : World) (walletAddress : jsstring)
    (names : list ArnsName) (n : ArnsName) :
  fst (run (getArnsNames w walletAddress)) = Ok names -> In n names ->
  exists u, undername n = Some u /\ u <> [].
Proof.
  destruct (getArNSRecords w) as [records|e] eqn:Hfetch.
  - rewrite (getArnsNames_run w walletAddress Hfetch). cbn [fst].
    intros [= <-] Hin. apply in_map_iff in Hin as (entry & <- & _).
    unfold name_of. cbn [undername]. eexists. split; [reflexivity|].
    destruct (record_undername (snd entry)) as [[|a u]|]; discriminate.
  - unfold run, getArnsNames, try_catch, bind, call. rewrite Hfetch.
    destruct (streq (NODE_ENV w) (lit "development")); cbn [fst ret throw];
      unfold ret, throw; cbn [fst]; [|discriminate].
    intros [= <-] [<-|[<-|[]]]; cbn [undername]; eexists;
      (split; [reflexivity|discriminate]).
Qed.

Lemma getArnsNames_undername_defaulted_witness :
  exists u, undername (mkName (lit "B") (lit "pB") (Some (lit "www"))) = Some u
            /\ u <> [].
Proof.
  apply (@getArnsNames_undername_defaulted (abcWorld (lit "production"))
           (lit "Y") [mkName (lit "B") (lit "pB") (Some (lit "www"))]).
  - reflexivity.
  - left. reflexivity.
Defined.



Lemma filter_keeps_distinct {K V} (key : V -> K) (keep : V -> bool) :
  forall xs : list V,
    NoDup (map key xs) -> NoDup (map key (filter keep xs)).
Proof.
  intros xs. induction xs as [|x xs IH]; simpl; [auto|]. intros H.
  apply NoDup_cons_iff in H as [Hx Hxs]. destruct (keep x); simpl; auto.
  apply NoDup_cons; auto. intros Hin. apply Hx.
  apply in_map_iff in Hin as (y & <- & Hy). apply filter_In in Hy as [Hy _].
  now apply in_map.
Qed.

(** X9: the registry is an object, so its keys are distinct; the names of
    the records that [getArnsNames] returns are then distinct too, and a
    selection by name on the page designates one record. *)
Theorem getArnsNames_names_distinct (w : World) (walletAddress : jsstring)
    (records : list (jsstring * ArnsRecord)) (names : list ArnsName) :
  getArNSRecords w = Ok records -> NoDup (map fst records) ->
  fst (run (getArnsNames w walletAddress)) = Ok names ->
  NoDup (map name names) /\
  forall n, In n names -> find_selected (name n) names = Some n.
Proof.
  intros Hfetch Hnd. rewrite (getArnsNames_run w _ Hfetch). cbn [fst].
  intros [= <-].
  assert (Hn : NoDup (map name (map name_of
                        (filter (owns w walletAddress) records)))).
  { rewrite map_map. cbn [name_of name]. now apply filter_keeps_distinct. }
  split; [exact Hn|].
  revert Hn. generalize (map name_of (filter (owns w walletAddress) records)).
  intros names. unfold find_selected.
  induction names as [|x names IH]; intros Hn n Hin; [contradiction|].
  simpl in Hn. apply NoDup_cons_iff in Hn as [Hx Hn]. simpl.
  destruct Hin as [->|Hin]; [now rewrite streq_refl|].
  destruct (streq (name x) (name n)) eqn:E; [|now apply IH].
  apply streq_eq in E. exfalso. apply Hx. rewrite E. now apply in_map.
Qed.

Lemma getArnsNames_names_distinct_witness :
  NoDup (map name [mkName (lit "A") (lit "pA") (Some (lit "@"))]) /\
  forall n, In n [mkName (lit "A") (lit "pA") (Some (lit "@"))] ->
            find_selected (name n) [mkName (lit "A") (lit "pA") (Some (lit "@"))]
            = Some n.
Proof.
  apply (@getArnsNames_names_distinct (abcWorld (lit "production")) (lit "X")
           _ _ eq_refl).
  - cbn. repeat constructor; cbn; intuition discriminate.
  - reflexivity.
Defined.

(** The lookup throws nothing but the directory-unavailable error. *)
Lemma getArnsNames_throws (w : World) (walletAddress : jsstring) e log :
  run (getArnsNames w walletAddress) = (Throw e, log) ->
  e = ErrorObj fetchFailedMessage /\ exists e0, getArNSRecords w = Throw e0.
Proof.
  destruct (getArNSRecords w) as [records|e0] eqn:Hfetch.
  - rewrite (getArnsNames_run w walletAddress Hfetch). discriminate.
  - unfold run, getArnsNames, try_catch, bind, call. rewrite Hfetch.
    destruct (streq (NODE_ENV w) (lit "development")); unfold ret, throw;
      [discriminate|]. intros [= <- _]. eauto.
Qed.

(** X10: [handleFetchArnsNames] does nothing, and calls nothing, while
    no wallet address is known.  With an address it ends with the loading
    flag off and in one of three states: some names listed and no error; no
    name listed and the no-names error; or, when the registry could not be
    fetched, the previous list kept and the directory-unavailable error (the
    handler's own fallback text is never shown). *)
Theorem handleFetchArnsNames_outcome (w : World) (c : ConnState)
    (st : PageState) :
  let c' := fst (fst (handleFetchArnsNames w c st)) in
  let st' := snd (fst (handleFetchArnsNames w c st)) in
  (walletAddress c = [] -> handleFetchArnsNames w c st = ((c, st), [])) /\
  (walletAddress c <> [] ->
   isLoadingArns c' = false /\
   ((arnsNames st' <> [] /\ error st' = None /\
     fst (run (getArnsNames w (walletAddress c))) = Ok (arnsNames st')) \/
    (arnsNames st' = [] /\ error st' = Some noNamesMessage /\
     fst (run (getArnsNames w (walletAddress c))) = Ok []) \/
    (arnsNames st' = arnsNames st /\ error st' = Some fetchFailedMessage /\
     exists e0, getArNSRecords w = Throw e0))).
Proof.
  unfold handleFetchArnsNames. split.
  - intros ->. reflexivity.
  - intros Haddr. destruct (walletAddress c) as [|a addr] eqn:Ea;
      [contradiction|]. cbn [is_empty].
    destruct (run (getArnsNames w (a :: addr))) as [[names|e] log] eqn:Hrun.
    + cbn. split; [reflexivity|]. destruct names as [|n names]; cbn.
      * right; left. auto.
      * left. repeat split. discriminate.
    + apply getArnsNames_throws in Hrun as [-> He]. cbn.
      split; [reflexivity|]. right; right. auto.
Qed.

Lemma handleFetchArnsNames_outcome_witness :
  handleFetchArnsNames (abcWorld (lit "production"))
    (mkConn false [] false false) (mkPage [] [] [] [] None false) =
  ((mkConn false [] false false, mkPage [] [] [] [] None false), []).
Proof.
  apply (proj1 (handleFetchArnsNames_outcome (abcWorld (lit "production"))
                  (mkConn false [] false false)
                  (mkPage [] [] [] [] None false))).
  reflexivity.
Defined.

(** ** Migration executor, further *)

Lemma find_arnsName_none (processId : jsstring)
    (records : list (jsstring * ArnsRecord)) :
  (forall entry, In entry records ->
                 record_processId (snd entry) <> processId) ->
  find_arnsName processId records = [].
Proof.
  induction records as [|[nm record] records IH]; simpl; [reflexivity|].
  intros H. destruct (streq (record_processId record) processId) eqn:E.
  - apply streq_eq in E. exfalso. apply (H (nm, record)); auto.
  - apply IH. intros entry Hin. apply H. auto.
Qed.

Lemma find_arnsName_first (processId nm : jsstring) (record : ArnsRecord)
    (before after : list (jsstring * ArnsRecord)) :
  (forall entry, In entry before ->
                 record_processId (snd entry) <> processId) ->
  record_processId record = processId ->
  find_arnsName processId (before ++ (nm, record) :: after) = nm.
Proof.
  intros Hb Hr. induction before as [|[nm' record'] before IH]; simpl.
  - rewrite Hr, streq_refl. reflexivity.
  - destruct (streq (record_processId record') processId) eqn:E.
    + apply streq_eq in E. exfalso. apply (Hb (nm', record')); simpl; auto.
    + apply IH. intros entry Hin. apply Hb. simpl; auto.
Qed.

(** X11: the URL is validated before the wallet is looked for, and
    without a wallet [migrateToArns] calls nothing: outside development mode
    it fails with the wallet-not-found error when the URL has a trailing
    segment, and with the invalid-URL error when it has none. *)
Theorem migrateToArns_no_wallet
    (w : World) (processId undername arweaveUrl : jsstring) :
  arweaveWallet w = false ->
  snd (run (migrateToArns w processId undername arweaveUrl)) = [] /\
  (NODE_ENV w <> lit "development" ->
   ((exists seg, TrailingSegment arweaveUrl seg) ->
    fst (run (migrateToArns w processId undername arweaveUrl)) =
    Throw (ErrorObj (lit "Migration failed: ArConnect wallet not found"))) /\
   ((forall seg, ~ TrailingSegment arweaveUrl seg) ->
    fst (run (migrateToArns w processId undername arweaveUrl)) =
    Throw (ErrorObj (lit "Migration failed: Invalid Arweave URL format")))).
Proof.
  intros Hw. rewrite migrateToArns_run, migrate_body_run, Hw.
  destruct (exec txIdRegex arweaveUrl) as [y|] eqn:He.
  - split.
    + destruct (streq (NODE_ENV w) _); reflexivity.
    + intros Henv. apply streq_neq in Henv. rewrite Henv. split; [reflexivity|].
      intros Hn. apply exec_txIdRegex_none in Hn. congruence.
  - split.
    + destruct (streq (NODE_ENV w) _); reflexivity.
    + intros Henv. apply streq_neq in Henv. rewrite Henv. split; [|reflexivity].
      intros [seg Hseg].
      now apply (proj1 (exec_txIdRegex_none arweaveUrl) He) in Hseg.
Qed.

Lemma migrateToArns_no_wallet_witness :
  snd (run (migrateToArns
              (mkWorld (lit "production") false (Ok tt) (fun _ => Ok tt)
                 (Ok []) (fun _ => Throw NonError)
                 (fun _ _ _ => Throw NonError) [])
              (lit "C1") (lit "@") (lit "https://foo.arweave.net/abc123"))) = [].
Proof.
  apply (@migrateToArns_no_wallet
           (mkWorld (lit "production") false (Ok tt) (fun _ => Ok tt)
                 (Ok []) (fun _ => Throw NonError)
              (fun _ _ _ => Throw NonError) [])
           (lit "C1") (lit "@") (lit "https://foo.arweave.net/abc123")).
  reflexivity.
Defined.

(** X12: a failure of the resolution step comes after the write.  When
    the submission was reached (trailing segment, wallet present, signer and
    contract client constructed) and succeeded, and then the registry cannot
    be fetched, or has no entry controlled by the contract, the invocation
    fails (outside development mode) with the fetch error, respectively the
    name-not-found error, and the update has already been submitted. *)
Theorem migrateToArns_resolution_failed
    (w : World) (processId undername arweaveUrl seg : jsstring)
    (result : WriteResult) :
  TrailingSegment arweaveUrl seg ->
  arweaveWallet w = true ->
  Constructed w processId ->
  setUndernameRecord w processId (mkParams undername seg 3600)
    (migrationTags w arweaveUrl) = Ok result ->
  NODE_ENV w <> lit "development" ->
  (forall e, getArNSRecords w = Throw e ->
     run (migrateToArns w processId undername arweaveUrl) =
     (Throw (ErrorObj (lit "Migration failed: " ++ message_of e)),
      [submission w processId undername arweaveUrl seg; CallGetArNSRecords])) /\
  (forall records, getArNSRecords w = Ok records ->
     (forall entry, In entry records ->
                    record_processId (snd entry) <> processId) ->
     run (migrateToArns w processId undername arweaveUrl) =
     (Throw (ErrorObj
               (lit "Migration failed: Could not find ARNS name for the given process ID")),
      [submission w processId undername arweaveUrl seg; CallGetArNSRecords])).
Proof.
  intros Hseg Hw [Hs Ha] Hsub Henv.
  destruct (exec_txIdRegex_segment Hseg) as (y & He & Hg).
  apply streq_neq in Henv.
  rewrite migrateToArns_run, migrate_body_run, He, Hw, Hs, Ha, Hg. cbv zeta.
  rewrite Hsub. split.
  - intros e Hfetch. rewrite Hfetch, Henv. reflexivity.
  - intros records Hfetch Hnone. rewrite Hfetch.
    rewrite find_arnsName_none by exact Hnone. cbn [is_empty].
    rewrite Henv. reflexivity.
Qed.

Lemma migrateToArns_resolution_failed_witness :
  run (migrateToArns (barWorld (lit "production") (mkWrite None))
         (lit "C9") (lit "@") (lit "https://foo.arweave.net/abc123")) =
  (Throw (ErrorObj
            (lit "Migration failed: Could not find ARNS name for the given process ID")),
   [submission (barWorld (lit "production") (mkWrite None))
      (lit "C9") (lit "@") (lit "https://foo.arweave.net/abc123") (lit "abc123");
    CallGetArNSRecords]).
Proof.
  apply (proj2 (@migrateToArns_resolution_failed
           (barWorld (lit "production") (mkWrite None))
           (lit "C9") (lit "@") (lit "https://foo.arweave.net/abc123")
           (lit "abc123") (mkWrite None)
           ltac:(exists (lit "https://foo.arweave.net"); split; [reflexivity|];
                 split; [discriminate|repeat constructor])
           eq_refl (conj eq_refl eq_refl) eq_refl ltac:(discriminate))
           _ eq_refl).
  intros entry [<-|[<-|[]]]; discriminate.
Defined.

(** X13: whatever the environment and the input, an invocation of
    [migrateToArns] makes no call at all, or submits one update and nothing
    else, or submits one update and then fetches the registry once.  The
    update is for the given contract and sub-name, points at the trailing
    segment of the URL and has a TTL of 3600 seconds; there is never a second
    submission and never an ownership query. *)
Theorem migrateToArns_calls
    (w : World) (processId undername arweaveUrl : jsstring) :
  let log := snd (run (migrateToArns w processId undername arweaveUrl)) in
  log = [] \/
  exists seg,
    TrailingSegment arweaveUrl seg /\ arweaveWallet w = true /\
    (log = [CallSetUndernameRecord processId (mkParams undername seg 3600)
              (migrationTags w arweaveUrl)] \/
     log = [CallSetUndernameRecord processId (mkParams undername seg 3600)
              (migrationTags w arweaveUrl);
            CallGetArNSRecords]).
Proof.
  cbv zeta. rewrite migrateToArns_run, migrate_body_run.
  destruct (exec txIdRegex arweaveUrl) as [y|] eqn:He.
  - apply exec_txIdRegex_some in He as (seg & Hc & Hseg).
    assert (Hg : group1_text y = seg) by (unfold group1_text; now rewrite Hc).
    rewrite Hg. destruct (arweaveWallet w).
    + destruct (newArweaveSigner w);
        [|left; destruct (streq (NODE_ENV w) _); reflexivity].
      destruct (initANT w processId);
        [|left; destruct (streq (NODE_ENV w) _); reflexivity].
      right. exists seg. split; [assumption|]. split; [reflexivity|].
      unfold submission.
      destruct (setUndernameRecord w processId _ _).
      * destruct (getArNSRecords w).
        -- destruct (is_empty _); [|right; reflexivity].
           destruct (streq (NODE_ENV w) _); right; reflexivity.
        -- destruct (streq (NODE_ENV w) _); right; reflexivity.
      * destruct (streq (NODE_ENV w) _); left; reflexivity.
    + left. destruct (streq (NODE_ENV w) _); reflexivity.
  - left. destruct (streq (NODE_ENV w) _); reflexivity.
Qed.

(** X14: in development mode [migrateToArns] never throws: every failure
    is turned into a mock result.  In any other mode, whatever it throws is
    an [Error] whose message starts with [Migration failed: ]. *)
Theorem migrateToArns_errors
    (w : World) (processId undername arweaveUrl : jsstring) :
  (NODE_ENV w = lit "development" ->
   exists res, fst (run (migrateToArns w processId undername arweaveUrl)) = Ok res) /\
  (forall e, fst (run (migrateToArns w processId undername arweaveUrl)) = Throw e ->
     NODE_ENV w <> lit "development" /\
     exists msg, e = ErrorObj (lit "Migration failed: " ++ msg)).
Proof.
  rewrite migrateToArns_run.
  destruct (run (migrate_body w processId undername arweaveUrl))
    as [[res|e0] log].
  - cbn [fst]. split; [eauto|]. discriminate.
  - destruct (streq (NODE_ENV w) (lit "development")) eqn:Henv; cbn [fst].
    + split; [eauto|]. discriminate.
    + apply streq_neq in Henv. split; [contradiction|].
      intros e [= <-]. split; [assumption|].
      exists (message_of e0). reflexivity.
Qed.

Lemma migrateToArns_errors_witness :
  exists res,
    fst (run (migrateToArns (downWorld (lit "development")) (lit "C1") []
                (lit "not a url"))) = Ok res.
Proof.
  apply (proj1 (migrateToArns_errors (downWorld (lit "development"))
                 (lit "C1") [] (lit "not a url"))).
  reflexivity.
Defined.

(** X15: the migration returns whenever its steps succeed, and the name
    is resolved by registry order.  With a trailing segment in the URL, a
    wallet, a signer and a contract client that are constructed, an accepted
    submission and a registry in which the first entry
    controlled by the contract has the non-empty name [arnsName], the
    invocation returns the URL formatted from [arnsName] and the reported
    transaction id (or [pending]), after one submission and one fetch; later
    entries of the same contract are not considered. *)
Theorem migrateToArns_returns
    (w : World) (processId undername arweaveUrl seg arnsName : jsstring)
    (result : WriteResult) (record : ArnsRecord)
    (before after : list (jsstring * ArnsRecord)) :
  TrailingSegment arweaveUrl seg ->
  arweaveWallet w = true ->
  Constructed w processId ->
  setUndernameRecord w processId (mkParams undername seg 3600)
    (migrationTags w arweaveUrl) = Ok result ->
  getArNSRecords w = Ok (before ++ (arnsName, record) :: after) ->
  (forall entry, In entry before ->
                 record_processId (snd entry) <> processId) ->
  record_processId record = processId ->
  arnsName <> [] ->
  run (migrateToArns w processId undername arweaveUrl) =
  (Ok (mkResult (formatArnsUrl undername arnsName)
         (or_default (id result) (lit "pending"))),
   [submission w processId undername arweaveUrl seg; CallGetArNSRecords]).
Proof.
  intros Hseg Hw [Hs Ha] Hsub Hfetch Hbefore Hrec Hname.
  destruct (exec_txIdRegex_segment Hseg) as (y & He & Hg).
  rewrite migrateToArns_run, migrate_body_run, He, Hw, Hs, Ha, Hg. cbv zeta.
  rewrite Hsub, Hfetch.
  rewrite find_arnsName_first by assumption.
  destruct arnsName; [contradiction|]. reflexivity.
Qed.

(** Two names controlled by the same contract: the first one is used. *)
Lemma migrateToArns_returns_witness :
  run (migrateToArns
         (mkWorld (lit "production") true (Ok tt) (fun _ => Ok tt)
            (Ok [ (lit "foo", mkRecord (lit "C0") None);
                  (lit "bar", mkRecord (lit "C1") None);
                  (lit "baz", mkRecord (lit "C1") None) ])
            (fun _ => Throw NonError)
            (fun _ _ _ => Ok (mkWrite (Some (lit "T1"))))
            (lit "2024-01-01T00:00:00.000Z"))
         (lit "C1") (lit "www") (lit "https://foo.arweave.net/abc123")) =
  (Ok (mkResult (lit "https://www_bar.ar.io") (lit "T1")),
   [CallSetUndernameRecord (lit "C1") (mkParams (lit "www") (lit "abc123") 3600)
      [mkTag (lit "App-Name") (lit "ARNS-Migration-Tool");
       mkTag (lit "Migration-Source") (lit "https://foo.arweave.net/abc123");
       mkTag (lit "Timestamp") (lit "2024-01-01T00:00:00.000Z")];
    CallGetArNSRecords]).
Proof.
  apply (@migrateToArns_returns
           (mkWorld (lit "production") true (Ok tt) (fun _ => Ok tt)
              (Ok [ (lit "foo", mkRecord (lit "C0") None);
                    (lit "bar", mkRecord (lit "C1") None);
                    (lit "baz", mkRecord (lit "C1") None) ])
              (fun _ => Throw NonError)
              (fun _ _ _ => Ok (mkWrite (Some (lit "T1"))))
              (lit "2024-01-01T00:00:00.000Z"))
           (lit "C1") (lit "www") (lit "https://foo.arweave.net/abc123")
           (lit "abc123") (lit "bar") (mkWrite (Some (lit "T1")))
           (mkRecord (lit "C1") None)
           [(lit "foo", mkRecord (lit "C0") None)]
           [(lit "baz", mkRecord (lit "C1") None)]).
  - exists (lit "https://foo.arweave.net"). split; [reflexivity|].
    split; [discriminate|repeat constructor].
  - reflexivity.
  - split; reflexivity.
  - reflexivity.
  - reflexivity.
  - intros entry [<-|[]]. discriminate.
  - reflexivity.
  - discriminate.
Defined.

(** ** The form handler, further *)

Lemma run_bind_ret {A B} (c : M A) (f : A -> B) :
  run (x <- c ;; ret (f x)) =
  match run c with
  | (Ok a, log) => (Ok (f a), log)
  | (Throw e, log) => (Throw e, log)
  end.
Proof. unfold run, bind, ret. destruct (c []) as [[a|e] log]; reflexivity. Qed.

(** A URL of the accepted shape ends with a slash and its segment. *)
Lemma ContentUrl_segment (sub seg : jsstring) :
  seg <> [] -> Forall (fun c => isIdChar c = true) seg ->
  TrailingSegment (lit "https://" ++ sub ++ lit ".arweave.net/" ++ seg) seg.
Proof.
  intros Hne Hseg. exists (lit "https://" ++ sub ++ lit ".arweave.net").
  split; [|auto].
  change (lit ".arweave.net/") with (lit ".arweave.net" ++ lit "/").
  now rewrite <- !app_assoc.
Qed.

Lemma handleMigration_body_run (w : World) (st : PageState) :
  run (handleMigration_body w st) =
  match find_selected (selectedArns st) (arnsNames st) with
  | None => (Throw (ErrorObj (lit "Selected ARNS name not found")), [])
  | Some n =>
      match run (migrateToArns w (processId n)
                   (or_default (undername n) (lit "@")) (arweaveUrl st)) with
      | (Ok result, log) => (Ok (arnsUrl result), log)
      | (Throw e, log) => (Throw e, log)
      end
  end.
Proof.
  unfold handleMigration_body.
  destruct (find_selected (selectedArns st) (arnsNames st)); [|reflexivity].
  apply run_bind_ret.
Qed.

Lemma handleMigration_log_head (w : World) (st : PageState)
    (sub seg : jsstring) (n : ArnsName) :
  arweaveUrl st = lit "https://" ++ sub ++ lit ".arweave.net/" ++ seg ->
  sub <> [] -> Forall (fun c => isIdChar c = true) sub ->
  seg <> [] -> Forall (fun c => isIdChar c = true) seg ->
  selectedArns st <> [] ->
  find_selected (selectedArns st) (arnsNames st) = Some n ->
  arweaveWallet w = true ->
  Constructed w (processId n) ->
  exists log,
    snd (handleMigration w st) =
    submission w (processId n) (or_default (undername n) (lit "@"))
      (arweaveUrl st) seg :: log.
Proof.
  intros Hurl Hsub1 Hsub2 Hseg1 Hseg2 Hsel Hfind Hw Hc.
  assert (Hshape : test arweaveRegex (arweaveUrl st) = true).
  { apply arweaveRegex_shape. exists sub, seg. auto. }
  assert (Htrail : TrailingSegment (arweaveUrl st) seg)
    by (rewrite Hurl; now apply ContentUrl_segment).
  unfold handleMigration. rewrite Hshape.
  destruct (selectedArns st) eqn:Es; [contradiction|].
  destruct (arweaveUrl st) eqn:Eu; [rewrite Hurl in Eu; discriminate|].
  cbn [is_empty orb negb]. rewrite <- Es, <- Eu in *.
  rewrite handleMigration_body_run, Hfind.
  destruct (@migrateToArns_log_head w (processId n)
              (or_default (undername n) (lit "@")) _ _ Htrail Hw Hc)
    as [log Hlog].
  exists log.
  destruct (run (migrateToArns w (processId n)
                   (or_default (undername n) (lit "@")) (arweaveUrl st)))
    as [[res|e] log']; cbn [snd] in *; exact Hlog.
Qed.

(** X16: for a URL that the form accepts, the migration's own URL check
    cannot fail.  With a selected name that is in the list, a wallet, and
    a signer and a contract client that are constructed, [handleMigration]
    submits an update to the contract of the selected
    record, under its sub-name ([@] when it has none), pointing at the path
    segment of the URL. *)
Theorem handleMigration_submits (w : World) (st : PageState)
    (sub seg : jsstring) (n : ArnsName) :
  arweaveUrl st = lit "https://" ++ sub ++ lit ".arweave.net/" ++ seg ->
  sub <> [] -> Forall (fun c => isIdChar c = true) sub ->
  seg <> [] -> Forall (fun c => isIdChar c = true) seg ->
  selectedArns st <> [] ->
  find_selected (selectedArns st) (arnsNames st) = Some n ->
  arweaveWallet w = true ->
  Constructed w (processId n) ->
  exists log,
    snd (handleMigration w st) =
    submission w (processId n) (or_default (undername n) (lit "@"))
      (arweaveUrl st) seg :: log.
Proof. apply handleMigration_log_head. Qed.

Lemma handleMigration_submits_witness :
  exists log,
    snd (handleMigration (barWorld (lit "production") (mkWrite None))
           (mkPage [mkName (lit "bar") (lit "C1") None] (lit "bar")
              (lit "https://foo.arweave.net/abc123") [] None false)) =
    submission (barWorld (lit "production") (mkWrite None)) (lit "C1") (lit "@")
      (lit "https://foo.arweave.net/abc123") (lit "abc123") :: log.
Proof.
  apply (@handleMigration_submits (barWorld (lit "production") (mkWrite None))
           (mkPage [mkName (lit "bar") (lit "C1") None] (lit "bar")
              (lit "https://foo.arweave.net/abc123") [] None false)
           (lit "foo") (lit "abc123") (mkName (lit "bar") (lit "C1") None)).
  - reflexivity.
  - discriminate.
  - repeat constructor.
  - discriminate.
  - repeat constructor.
  - discriminate.
  - reflexivity.
  - reflexivity.
  - split; reflexivity.
Defined.

(** X17: [handleMigration] reaches the registry or a contract only after
    every check has passed: if it made any call, then a name was selected
    and is in the list, the URL has the accepted shape, and a wallet is
    present. *)
Theorem handleMigration_calls_checked (w : World) (st : PageState) :
  snd (handleMigration w st) <> [] ->
  selectedArns st <> [] /\
  ContentUrlShape (arweaveUrl st) /\
  (exists n, find_selected (selectedArns st) (arnsNames st) = Some n) /\
  arweaveWallet w = true.
Proof.
  unfold handleMigration.
  destruct (selectedArns st) eqn:Es; [intros H; now contradiction H|].
  destruct (arweaveUrl st) eqn:Eu; [intros H; now contradiction H|].
  cbn [is_empty orb]. rewrite <- Es, <- Eu.
  destruct (test arweaveRegex (arweaveUrl st)) eqn:Ht;
    [|intros H; now contradiction H].
  cbn [negb]. rewrite handleMigration_body_run.
  destruct (find_selected (selectedArns st) (arnsNames st)) as [n|];
    [|intros H; now contradiction H].
  intros H. split; [rewrite Es; discriminate|].
  split; [now apply arweaveRegex_shape|]. split; [eauto|].
  destruct (arweaveWallet w) eqn:Hw; [reflexivity|]. exfalso. apply H.
  pose proof (migrateToArns_log_nil w (processId n)
                (or_default (undername n) (lit "@")) (arweaveUrl st) Hw) as Hl.
  destruct (run (migrateToArns w (processId n)
                   (or_default (undername n) (lit "@")) (arweaveUrl st)))
    as [[res|e] log']; cbn [snd] in *; exact Hl.
Qed.

Lemma handleMigration_calls_checked_witness :
  lit "bar" <> [] /\
  ContentUrlShape (lit "https://foo.arweave.net/abc123") /\
  (exists n, find_selected (lit "bar") [mkName (lit "bar") (lit "C1") None]
             = Some n) /\
  arweaveWallet (barWorld (lit "production") (mkWrite None)) = true.
Proof.
  apply (@handleMigration_calls_checked
           (barWorld (lit "production") (mkWrite None))
           (mkPage [mkName (lit "bar") (lit "C1") None] (lit "bar")
              (lit "https://foo.arweave.net/abc123") [] None false)).
  vm_compute. discriminate.
Defined.

Lemma migrateToArns_result_url
    (w : World) (processId undername arweaveUrl : jsstring)
    (res : MigrationResult) :
  fst (run (migrateToArns w processId undername arweaveUrl)) = Ok res ->
  exists tail, arnsUrl res = lit "https://" ++ tail.
Proof.
  rewrite migrateToArns_run, migrate_body_run.
  assert (Hmock : forall log res',
    fst (if streq (NODE_ENV w) (lit "development")
         then (Ok (mkResult
                     (if streq undername (lit "@")
                      then lit "https://example-arns.ar.io"
                      else lit "https://" ++ undername ++ lit "_example-arns.ar.io")
                     (lit "mock-migration-tx-id")), log : list event)
         else (Throw (ErrorObj res'), log)) = Ok res ->
    exists tail, arnsUrl res = lit "https://" ++ tail).
  { intros log res'. destruct (streq (NODE_ENV w) _); [|discriminate].
    cbn [fst]. intros [= <-]. cbn [arnsUrl].
    destruct (streq undername _); eexists; reflexivity. }
  destruct (exec txIdRegex arweaveUrl) as [y|]; [|apply Hmock].
  destruct (arweaveWallet w); [|apply Hmock].
  destruct (newArweaveSigner w); [|apply Hmock].
  destruct (initANT w processId); [|apply Hmock]. cbv zeta.
  destruct (setUndernameRecord w processId _ _); [|apply Hmock].
  destruct (getArNSRecords w); [|apply Hmock].
  destruct (is_empty _); [apply Hmock|].
  cbn [fst]. intros [= <-]. cbn [arnsUrl]. unfold formatArnsUrl.
  destruct (_ || _); eexists; reflexivity.
Qed.

(** X18: [handleMigration] never changes the list of names, the
    selection or the URL.  It ends without an error only after a migration
    that returned; the busy flag is then off and the result shown is an
    [https://] URL.  The only errors it can show are the two form messages,
    the unknown-selection message, and a message starting with
    [Migration failed: ]; its bare fallback text is never shown. *)
Theorem handleMigration_outcome (w : World) (st : PageState) :
  let st' := fst (handleMigration w st) in
  arnsNames st' = arnsNames st /\
  selectedArns st' = selectedArns st /\
  arweaveUrl st' = arweaveUrl st /\
  (error st' = None ->
   isMigrating st' = false /\
   (exists url log, run (handleMigration_body w st) = (Ok url, log) /\
                    migrationResult st' = url) /\
   exists tail, migrationResult st' = lit "https://" ++ tail) /\
  (forall msg, error st' = Some msg ->
     msg = selectMessage \/ msg = invalidUrlMessage \/
     msg = lit "Selected ARNS name not found" \/
     exists reason, msg = lit "Migration failed: " ++ reason).
Proof.
  cbv zeta. unfold handleMigration.
  destruct (is_empty (selectedArns st) || is_empty (arweaveUrl st)).
  { cbn. repeat split; try discriminate. intros msg [= <-]. auto. }
  destruct (negb (test arweaveRegex (arweaveUrl st))).
  { cbn. repeat split; try discriminate. intros msg [= <-]. auto. }
  pose proof (handleMigration_body_run w st) as Hrun.
  destruct (run (handleMigration_body w st)) as [[url|err] log].
  - cbn. repeat split; try discriminate; eauto.
    destruct (find_selected (selectedArns st) (arnsNames st)) as [n|];
      [|discriminate].
    destruct (run (migrateToArns w (processId n)
                     (or_default (undername n) (lit "@")) (arweaveUrl st)))
      as [[res|e] log'] eqn:Hm; [|discriminate].
    injection Hrun as -> _.
    apply (@migrateToArns_result_url w (processId n)
             (or_default (undername n) (lit "@")) (arweaveUrl st)).
    now rewrite Hm.
  - cbn. repeat split; try discriminate.
    intros msg [= <-].
    destruct (find_selected (selectedArns st) (arnsNames st)) as [n|].
    + destruct (run (migrateToArns w (processId n)
                       (or_default (undername n) (lit "@")) (arweaveUrl st)))
        as [[res|e] log'] eqn:Hm; [discriminate|].
      injection Hrun as -> _.
      assert (He : fst (run (migrateToArns w (processId n)
                          (or_default (undername n) (lit "@")) (arweaveUrl st)))
                   = Throw e) by now rewrite Hm.
      revert He. rewrite migrateToArns_run.
      destruct (run (migrate_body w (processId n)
                       (or_default (undername n) (lit "@")) (arweaveUrl st)))
        as [[res|e0] log0]; [discriminate|].
      destruct (streq (NODE_ENV w) _); [discriminate|].
      cbn [fst]. intros [= <-]. right; right; right. eexists. reflexivity.
    + injection Hrun as -> _. auto.
Qed.

(** ** URL/ID utilities, further *)

(** X19: [isValidArweaveId] accepts exactly the strings of 43 characters
    taken from the 64 characters [a-z], [A-Z], [0-9], [_] and [-]. *)
Theorem isValidArweaveId_iff (id : jsstring) :
  (isValidArweaveId id = true <->
   length id = 43 /\ Forall (fun c => isIdChar c = true) id) /\
  (forall c,
     isIdChar c =
     existsb (Ascii.eqb c)
       (lit "abcdefghijklmnopqrstuvwxyzABCDEFGHIJKLMNOPQRSTUVWXYZ0123456789_-")).
Proof.
  split; [apply isValidArweaveId_spec|].
  intros [[] [] [] [] [] [] [] []]; vm_compute; reflexivity.
Qed.

Lemma id_run_no_slash (s : jsstring) :
  Forall (fun c => isIdChar c = true) s -> ~ In "/"%char s.
Proof.
  intros Hs Hin. rewrite Forall_forall in Hs. apply Hs in Hin.
  rewrite isIdChar_slash in Hin. discriminate.
Qed.

(** X20: [extractTransactionId] invents nothing: what it returns stands
    in the URL right after a slash.  A string without a slash, a bare
    reference for one, yields none. *)
Theorem extractTransactionId_after_slash (url : jsstring) :
  (forall r, extractTransactionId url = Some r ->
             exists pre post, url = pre ++ lit "/" ++ r ++ post) /\
  (~ In "/"%char url -> extractTransactionId url = None).
Proof.
  assert (H : forall r, extractTransactionId url = Some r ->
                        exists pre post, url = pre ++ lit "/" ++ r ++ post).
  { intros r. rewrite extractTransactionId_unfold.
    destruct (exec (hostPattern (lit "arweave.net/")) url) as [y|] eqn:Ha.
    { apply exec_hostPattern_some in Ha as (r' & Hc & pre & (post & -> & _) & _).
      rewrite Hc. intros [= ->]. exists (pre ++ lit "arweave.net"), post.
      change (lit "arweave.net/") with (lit "arweave.net" ++ lit "/").
      now rewrite <- !app_assoc. }
    destruct (exec (hostPattern (lit "ar.io/")) url) as [y|] eqn:Hb.
    { apply exec_hostPattern_some in Hb as (r' & Hc & pre & (post & -> & _) & _).
      rewrite Hc. intros [= ->]. exists (pre ++ lit "ar.io"), post.
      change (lit "ar.io/") with (lit "ar.io" ++ lit "/").
      now rewrite <- !app_assoc. }
    destruct (exec trailingPattern url) as [y|] eqn:Ht; [|discriminate].
    apply exec_trailingPattern_some in Ht as (r' & Hc & pre & -> & _).
    rewrite Hc. intros [= ->]. exists pre, []. now rewrite app_nil_r. }
  split; [exact H|].
  intros Hno. destruct (extractTransactionId url) as [r|] eqn:He;
    [|reflexivity].
  destruct (H r eq_refl) as (pre & post & ->). exfalso. apply Hno.
  apply in_or_app. right. left. reflexivity.
Qed.

Lemma extractTransactionId_after_slash_witness :
  extractTransactionId (lit "abcdefghijklmnopqrstuvwxyzABCDEFGHIJKLMN0_-") = None.
Proof.
  apply (proj2 (extractTransactionId_after_slash
                  (lit "abcdefghijklmnopqrstuvwxyzABCDEFGHIJKLMN0_-"))).
  apply id_run_no_slash. repeat constructor.
Defined.

Lemma extractTxId_segment (url seg : jsstring) :
  TrailingSegment url seg -> extractTxId url = seg.
Proof.
  intros Hseg. unfold extractTxId.
  destruct (exec_txIdRegex_segment Hseg) as (y & -> & Hg). exact Hg.
Qed.

(** X21: [extractTxId] of the page returns the run of id characters
    between the last slash and the end of the URL, and the empty string
    exactly when the URL has no such segment; it is the very reference that
    [migrateToArns] submits for that URL when it reaches the submission
    (wallet present, signer and contract client constructed). *)
Theorem extractTxId_spec (url : jsstring) :
  (forall seg, TrailingSegment url seg -> extractTxId url = seg) /\
  (extractTxId url = [] <-> forall seg, ~ TrailingSegment url seg) /\
  (forall w processId undername,
     arweaveWallet w = true -> Constructed w processId ->
     extractTxId url <> [] ->
     exists log,
       snd (run (migrateToArns w processId undername url)) =
       submission w processId undername url (extractTxId url) :: log).
Proof.
  assert (Hnone : extractTxId url = [] <-> forall seg, ~ TrailingSegment url seg).
  { unfold extractTxId. destruct (exec txIdRegex url) as [y|] eqn:He.
    - apply exec_txIdRegex_some in He as (seg & Hc & Hseg).
      unfold group1_text. rewrite Hc. split.
      + intros ->. destruct Hseg as (_ & _ & Hne & _). contradiction.
      + intros Hn. now apply Hn in Hseg.
    - split; [|reflexivity]. intros _. now apply exec_txIdRegex_none. }
  split; [apply extractTxId_segment|]. split; [exact Hnone|].
  intros w processId undername Hw Hc Hne.
  destruct (exec txIdRegex url) as [y|] eqn:He.
  - apply exec_txIdRegex_some in He as (seg & _ & Hseg).
    rewrite (extractTxId_segment Hseg).
    now apply migrateToArns_log_head.
  - exfalso. apply Hne. apply Hnone. now apply exec_txIdRegex_none.
Qed.

Lemma extractTxId_spec_witness :
  extractTxId (lit "https://foo.arweave.net/abc123") = lit "abc123".
Proof.
  apply (proj1 (extractTxId_spec (lit "https://foo.arweave.net/abc123"))).
  exists (lit "https://foo.arweave.net"). split; [reflexivity|].
  split; [discriminate|repeat constructor].
Defined.

(** Where a slash can stand when what follows the other one has none. *)
Lemma slash_split (A B A' B' : jsstring) :
  A ++ "/"%char :: B = A' ++ "/"%char :: B' -> ~ In "/"%char B' ->
  (A = A' /\ B = B') \/ exists C, A' = A ++ "/"%char :: C.
Proof.
  revert A'. induction A as [|a A IH]; intros [|a' A'] E Hno; simpl in E.
  - injection E as ->. auto.
  - injection E as <- E. right. exists A'. reflexivity.
  - injection E as -> E. exfalso. apply Hno. rewrite <- E.
    apply in_or_app. right. left. reflexivity.
  - injection E as -> E. destruct (IH _ E Hno) as [[-> ->]|[C ->]]; [auto|].
    right. exists C. reflexivity.
Qed.

Lemma suffix_eq {A} (X Y s1 s2 : list A) :
  X ++ s1 = Y ++ s2 -> length s1 = length s2 -> s1 = s2.
Proof.
  intros E Hl.
  assert (Hlen : length (X ++ s1) = length (Y ++ s2)) by now rewrite E.
  rewrite !length_app in Hlen.
  apply app_same_length in E as [_ E]; [assumption|lia].
Qed.

(** The slashes of an accepted URL: the two of [https://] and the one
    before the segment. *)
Lemma content_url_slashes (sub seg A B : jsstring) :
  Forall (fun c => isIdChar c = true) sub ->
  Forall (fun c => isIdChar c = true) seg ->
  A ++ "/"%char :: B = lit "https://" ++ sub ++ lit ".arweave.net/" ++ seg ->
  A = lit "https:" \/ A = lit "https:/" \/
  (A = lit "https://" ++ sub ++ lit ".arweave.net" /\ B = seg).
Proof.
  intros Hsub Hseg E.
  replace (lit "https://" ++ sub ++ lit ".arweave.net/" ++ seg)
    with ((lit "https://" ++ sub ++ lit ".arweave.net") ++ "/"%char :: seg) in E.
  2:{ change (lit ".arweave.net/") with (lit ".arweave.net" ++ lit "/").
      now rewrite <- !app_assoc. }
  apply slash_split in E as [[-> ->]|[C E]]; [auto| |now apply id_run_no_slash].
  change (lit "https://" ++ sub ++ lit ".arweave.net")
    with (lit "https:/" ++ "/"%char :: (sub ++ lit ".arweave.net")) in E.
  symmetry in E. apply slash_split in E as [[-> _]|[C' E]]; [auto| |].
  2:{ intros Hin. apply in_app_or in Hin as [Hin|Hin].
      - now apply (id_run_no_slash Hsub).
      - vm_compute in Hin. intuition discriminate. }
  change (lit "https:/") with (lit "https:" ++ "/"%char :: []) in E.
  symmetry in E. apply slash_split in E as [[-> _]|[C'' E]]; [auto| |auto].
  exfalso. assert (Hin : In "/"%char (lit "https:")).
  { rewrite E. apply in_or_app. right. left. reflexivity. }
  vm_compute in Hin. intuition discriminate.
Qed.

(** In an accepted URL, [arweave.net/] followed by a reference occurs at
    one place only, before the segment. *)
Lemma content_url_arweave (sub seg pre r : jsstring) :
  Forall (fun c => isIdChar c = true) sub ->
  Forall (fun c => isIdChar c = true) seg ->
  IdAfter (lit "arweave.net/")
    (lit "https://" ++ sub ++ lit ".arweave.net/" ++ seg) pre r ->
  length pre = 9 + length sub /\ r = firstn 43 seg /\ 43 <= length seg.
Proof.
  intros Hsub Hseg (post & E0 & Hl & Hr).
  assert (E : (pre ++ lit "arweave.net") ++ "/"%char :: (r ++ post) =
              lit "https://" ++ sub ++ lit ".arweave.net/" ++ seg).
  { rewrite E0. change (lit "arweave.net/") with (lit "arweave.net" ++ lit "/").
    rewrite <- !app_assoc. reflexivity. }
  clear E0.
  apply content_url_slashes in E as [E|[E|[E E']]]; try assumption.
  - apply (f_equal (@List.length ascii)) in E. rewrite length_app in E.
    simpl in E. lia.
  - apply (f_equal (@List.length ascii)) in E. rewrite length_app in E.
    simpl in E. lia.
  - apply (f_equal (@List.length ascii)) in E. rewrite !length_app in E.
    simpl in E. split; [lia|]. subst seg.
    rewrite <- Hl, firstn_exact, length_app. split; [reflexivity|lia].
Qed.

(** [ar.io/] does not occur in an accepted URL. *)
Lemma content_url_ar_io (sub seg pre r : jsstring) :
  Forall (fun c => isIdChar c = true) sub ->
  Forall (fun c => isIdChar c = true) seg ->
  ~ IdAfter (lit "ar.io/")
      (lit "https://" ++ sub ++ lit ".arweave.net/" ++ seg) pre r.
Proof.
  intros Hsub Hseg (post & E0 & _).
  assert (E : (pre ++ lit "ar.io") ++ "/"%char :: (r ++ post) =
              lit "https://" ++ sub ++ lit ".arweave.net/" ++ seg).
  { rewrite E0. change (lit "ar.io/") with (lit "ar.io" ++ lit "/").
    rewrite <- !app_assoc. reflexivity. }
  clear E0.
  apply content_url_slashes in E as [E|[E|[E _]]]; try assumption.
  - change (lit "https:") with (lit "h" ++ lit "ttps:") in E.
    apply suffix_eq in E; [discriminate|reflexivity].
  - change (lit "https:/") with (lit "ht" ++ lit "tps:/") in E.
    apply suffix_eq in E; [discriminate|reflexivity].
  - change (lit ".arweave.net") with (lit ".arweav" ++ lit "e.net") in E.
    rewrite !app_assoc in E.
    apply suffix_eq in E; [discriminate|reflexivity].
Qed.

(** [extractTransactionId] on a URL of the accepted shape. *)
Lemma extract_content_url (sub seg : jsstring) :
  Forall (fun c => isIdChar c = true) sub ->
  seg <> [] -> Forall (fun c => isIdChar c = true) seg ->
  extractTransactionId (lit "https://" ++ sub ++ lit ".arweave.net/" ++ seg) =
  if 43 <=? length seg then Some (firstn 43 seg) else None.
Proof.
  intros Hsub Hne Hseg. rewrite extractTransactionId_unfold.
  destruct (Nat.leb_spec 43 (length seg)) as [Hl|Hl].
  - assert (Hf : FirstIdAfter (lit "arweave.net/")
                   (lit "https://" ++ sub ++ lit ".arweave.net/" ++ seg)
                   (firstn 43 seg)).
    { exists (lit "https://" ++ sub ++ lit "."). split.
      - exists (skipn 43 seg). split.
        + rewrite firstn_skipn.
          change (lit ".arweave.net/") with (lit "." ++ lit "arweave.net/").
          now rewrite <- !app_assoc.
        + split.
          * rewrite length_firstn. lia.
          * rewrite <- (firstn_skipn 43 seg) in Hseg.
            apply Forall_app in Hseg. tauto.
      - intros pre' r' H'.
        apply content_url_arweave in H' as [Hp _]; try assumption.
        rewrite !length_app. simpl. lia. }
    destruct (exec_hostPattern_first Hf) as (y & -> & Hc). exact Hc.
  - assert (Ha : exec (hostPattern (lit "arweave.net/"))
                   (lit "https://" ++ sub ++ lit ".arweave.net/" ++ seg) = None).
    { apply exec_hostPattern_none. intros pre r H'.
      apply content_url_arweave in H' as (_ & _ & H'); try assumption. lia. }
    assert (Hb : exec (hostPattern (lit "ar.io/"))
                   (lit "https://" ++ sub ++ lit ".arweave.net/" ++ seg) = None).
    { apply exec_hostPattern_none. intros pre r.
      now apply content_url_ar_io. }
    assert (Hc : exec trailingPattern
                   (lit "https://" ++ sub ++ lit ".arweave.net/" ++ seg) = None).
    { apply exec_trailingPattern_none. intros r (pre & E & Hlr & Hr).
      assert (Hrs : r = seg).
      { apply (@TrailingSegment_functional
                 (lit "https://" ++ sub ++ lit ".arweave.net/" ++ seg)).
        - exists pre. split; [exact E|]. split; [|exact Hr].
          intros ->. discriminate.
        - now apply ContentUrl_segment. }
      subst r. lia. }
    now rewrite Ha, Hb, Hc.
Qed.

(** X22: on a URL that the form accepts,
    [https://<sub>.arweave.net/<seg>], [extractTransactionId] returns the
    first 43 characters of the segment when the segment has at least 43
    characters, and none when it is shorter. *)
Theorem extractTransactionId_content_url (sub seg : jsstring) :
  Forall (fun c => isIdChar c = true) sub ->
  seg <> [] -> Forall (fun c => isIdChar c = true) seg ->
  (43 <= length seg ->
   extractTransactionId (lit "https://" ++ sub ++ lit ".arweave.net/" ++ seg)
   = Some (firstn 43 seg)) /\
  (length seg < 43 ->
   extractTransactionId (lit "https://" ++ sub ++ lit ".arweave.net/" ++ seg)
   = None).
Proof.
  intros Hsub Hne Hseg. rewrite (extract_content_url Hsub Hne Hseg).
  split; intros Hl.
  - apply Nat.leb_le in Hl. now rewrite Hl.
  - apply Nat.leb_gt in Hl. now rewrite Hl.
Qed.

Lemma extractTransactionId_content_url_witness :
  extractTransactionId (lit "https://" ++ lit "my-site_1" ++
                        lit ".arweave.net/" ++ lit "abc123") = None.
Proof.
  apply (@extractTransactionId_content_url (lit "my-site_1") (lit "abc123")).
  - repeat constructor.
  - discriminate.
  - repeat constructor.
  - vm_compute. lia.
Defined.

(** X23: the page and the utilities agree on an accepted URL only for a
    43-character segment: [extractTransactionId] returns the reference that
    [extractTxId] shows, and that [migrateToArns] submits, exactly when the
    segment has 43 characters. *)
Theorem extractTransactionId_agrees (sub seg : jsstring) :
  Forall (fun c => isIdChar c = true) sub ->
  seg <> [] -> Forall (fun c => isIdChar c = true) seg ->
  (extractTransactionId (lit "https://" ++ sub ++ lit ".arweave.net/" ++ seg) =
   Some (extractTxId (lit "https://" ++ sub ++ lit ".arweave.net/" ++ seg))
   <-> length seg = 43).
Proof.
  intros Hsub Hne Hseg. rewrite (extract_content_url Hsub Hne Hseg).
  rewrite (extractTxId_segment (ContentUrl_segment sub Hne Hseg)).
  destruct (Nat.leb_spec 43 (length seg)) as [Hl|Hl]; split.
  - intros E0. assert (E : firstn 43 seg = seg) by congruence.
    apply (f_equal (@List.length ascii)) in E.
    rewrite length_firstn in E. lia.
  - intros E. f_equal. apply firstn_all2. lia.
  - discriminate.
  - lia.
Qed.

Lemma extractTransactionId_agrees_witness :
  extractTransactionId
    (lit "https://" ++ lit "foo" ++ lit ".arweave.net/" ++
     lit "abcdefghijklmnopqrstuvwxyzABCDEFGHIJKLMN0_-Z") =
  Some (extractTxId
          (lit "https://" ++ lit "foo" ++ lit ".arweave.net/" ++
           lit "abcdefghijklmnopqrstuvwxyzABCDEFGHIJKLMN0_-Z"))
  <-> length (lit "abcdefghijklmnopqrstuvwxyzABCDEFGHIJKLMN0_-Z") = 43.
Proof.
  apply (@extractTransactionId_agrees (lit "foo")
           (lit "abcdefghijklmnopqrstuvwxyzABCDEFGHIJKLMN0_-Z")).
  - repeat constructor.
  - discriminate.
  - repeat constructor.
Defined.

(** ** From the lookup to the migration *)

Lemma find_selected_unique (names : list ArnsName) (n : ArnsName) :
  NoDup (map name names) -> In n names ->
  find_selected (name n) names = Some n.
Proof.
  unfold find_selected.
  induction names as [|x names IH]; intros Hn Hin; [contradiction|].
  simpl in Hn. apply NoDup_cons_iff in Hn as [Hx Hn]. simpl.
  destruct Hin as [->|Hin]; [now rewrite streq_refl|].
  destruct (streq (name x) (name n)) eqn:E; [|now apply IH].
  apply streq_eq in E. exfalso. apply Hx. rewrite E. now apply in_map.
Qed.

(** X24: the page's flow reaches the right contract.  After
    [handleFetchArnsNames] for an address that owns the registry entry
    [name -> record], selecting [name] and submitting an accepted URL makes
    [handleMigration], when the wallet is present and the signer and the
    contract client of the entry are constructed, send the update to the contract of that entry, under
    the entry's sub-name ([@] when it has none), pointing at the path
    segment of the URL. *)
Theorem fetch_then_migrate (w : World) (c : ConnState) (st : PageState)
    (records : list (jsstring * ArnsRecord))
    (nm sub seg : jsstring) (record : ArnsRecord) :
  getArNSRecords w = Ok records -> NoDup (map fst records) ->
  In (nm, record) records -> Owned w (walletAddress c) (nm, record) ->
  walletAddress c <> [] -> nm <> [] ->
  sub <> [] -> Forall (fun ch => isIdChar ch = true) sub ->
  seg <> [] -> Forall (fun ch => isIdChar ch = true) seg ->
  arweaveWallet w = true ->
  Constructed w (record_processId record) ->
  let fetched := snd (fst (handleFetchArnsNames w c st)) in
  let url := lit "https://" ++ sub ++ lit ".arweave.net/" ++ seg in
  let filled :=
    mkPage (arnsNames fetched) nm url (migrationResult fetched)
      (error fetched) (isMigrating fetched) in
  In (name_of (nm, record)) (arnsNames fetched) /\
  exists log,
    snd (handleMigration w filled) =
    submission w (record_processId record)
      (or_default (record_undername record) (lit "@")) url seg :: log.
Proof.
  intros Hfetch Hnd Hin Hown Haddr Hnm Hsub1 Hsub2 Hseg1 Hseg2 Hw Hc. cbv zeta.
  assert (Hnames : arnsNames (snd (fst (handleFetchArnsNames w c st))) =
                   map name_of (filter (owns w (walletAddress c)) records)).
  { unfold handleFetchArnsNames.
    destruct (walletAddress c) as [|a addr] eqn:Ea; [contradiction|].
    cbn [is_empty]. rewrite (getArnsNames_run w (a :: addr) Hfetch).
    reflexivity. }
  rewrite Hnames.
  assert (Hn : In (name_of (nm, record))
                 (map name_of (filter (owns w (walletAddress c)) records))).
  { apply in_map, filter_In. split; [assumption|]. now apply owns_Owned. }
  split; [exact Hn|].
  assert (Hd : NoDup (map name (map name_of
                        (filter (owns w (walletAddress c)) records)))).
  { rewrite map_map. cbn [name_of name]. now apply filter_keeps_distinct. }
  pose proof (find_selected_unique _ _ Hd Hn) as Hfind.
  cbn [name_of name fst] in Hfind.
  match goal with
  | |- exists log, snd (handleMigration w ?p) = _ =>
      destruct (@handleMigration_log_head w p sub seg (name_of (nm, record)))
        as [log Hlog]; auto
  end.
  exists log. rewrite Hlog. cbn [arweaveUrl name_of processId undername snd fst].
  f_equal. f_equal.
  destruct (record_undername record) as [[|a u]|]; reflexivity.
Qed.

Lemma fetch_then_migrate_witness :
  exists log,
    snd (handleMigration (abcWorld (lit "production"))
           (mkPage [mkName (lit "B") (lit "pB") (Some (lit "www"))] (lit "B")
              (lit "https://foo.arweave.net/abc123") [] None false)) =
    submission (abcWorld (lit "production")) (lit "pB") (lit "www")
      (lit "https://foo.arweave.net/abc123") (lit "abc123") :: log.
Proof.
  exact (proj2 (@fetch_then_migrate (abcWorld (lit "production"))
           (mkConn true (lit "Y") false false)
           (mkPage [] [] [] [] None false)
           _ (lit "B") (lit "foo") (lit "abc123")
           (mkRecord (lit "pB") (Some (lit "www")))
           eq_refl
           ltac:(cbn; repeat constructor; cbn; intuition discriminate)
           ltac:(cbn; auto)
           ltac:(exists (mkInfo (lit "Y")); split; reflexivity)
           ltac:(discriminate) ltac:(discriminate)
           ltac:(discriminate) ltac:(repeat constructor)
           ltac:(discriminate) ltac:(repeat constructor)
           eq_refl (conj eq_refl eq_refl))).
Defined.

(** ** The signer and the contract client *)



Example noSigner_run :
  run (migrateToArns (noSignerWorld (lit "production")) (lit "C1") (lit "@")
         (lit "https://foo.arweave.net/abc123")) =
  (Throw (ErrorObj (lit "Migration failed: invalid key")), []).
Proof. vm_compute. reflexivity. Qed.
